(** * Composite idealization solver: the six worked cases of
    [composite_cases.py] and the thin-walled section formulas they are
    compared with.

    Numbers.  The script computes on Python floats (binary64).  Here every
    float is an exact rational ([Q]): [+ - * /] and [**] with a literal
    integer exponent are the field operations, a decimal literal denotes
    its decimal value, and equality of results is [Qeq] ([==]).  Rounding is
    not part of the model, so an equation proved here holds of the running
    script up to rounding in the last places (for instance [0.1 * 0.2] is
    one unit in the last place above [0.02] in binary64).  Of the float
    range the model holds what raises: [**] on a value read raises
    OverflowError ([pypow]).  A product or quotient that leaves the range
    gives inf, which the model does not hold; so every theorem on a value
    that depends on an input bounds the inputs, and states the bounds that
    keep the values of the run far inside the range and its divisors far
    from zero.

    Inputs.  Every input is read with
    [st.sidebar.number_input(label, x)]; the second positional parameter of
    that widget is its lower bound, which is also the value shown first.
    A case is a function of the numbers so read. *)

From Stdlib Require Import Reals Qreals Lra.
From Stdlib Require Import QArith Qabs Lqa Lia List String.
Import ListNotations.
Open Scope string_scope.
Open Scope Q_scope.

(** ** The script's runtime: the rendered page and Python's division *)

(** The exceptions the arithmetic of the script can raise: [/] by a zero
    divisor, and [**] whose result leaves the binary64 range. *)
Inductive PyError : Type :=
| ZeroDivisionError
| OverflowError.

(** What a case leaves on the page.  [log_step] renders an expander with the
    formula, the cited pages and a metric holding [value] and [unit] (shown
    to four significant digits; the page here keeps the value passed);
    [st.write] renders a line of text around a value.  Headers and captions,
    which hold no value, are not kept. *)
Inductive Element : Type :=
| Step (label formula : string) (value : Q) (unit pages : string)
| Line (text : string) (value : Q) (unit : string).

(** A run of a case: the page rendered so far goes in; the page after the
    run comes out, with the exception that stopped it or the result.
    Elements rendered before an exception stay on the page. *)
Definition Script (A : Type) : Type := list Element -> list Element * (PyError + A).

Definition ret {A : Type} (a : A) : Script A :=
  fun page => (page, inr a).

Definition bind {A B : Type} (m : Script A) (k : A -> Script B) : Script B :=
  fun page =>
    match m page with
    | (page', inl e) => (page', inl e)
    | (page', inr a) => k a page'
    end.

Notation "x <- m ;; k" := (bind m (fun x => k))
  (at level 61, m at next level, right associativity).
Notation "m ;; k" := (bind m (fun _ => k))
  (at level 61, right associativity).

(** [x / y] on floats: raises when the divisor is zero.  The test here is
    on the exact value; the theorems that run such a division bound its
    divisor away from zero, where the rounded divisor is not zero either. *)
Definition truediv (x y : Q) : Script Q :=
  fun page =>
    if Qeq_bool y 0 then (page, inl ZeroDivisionError) else (page, inr (x / y)).

Infix "//" := truediv (at level 40, left associativity).

(** Where binary64 rounds to infinity: half a unit in the last place above
    the largest float. *)
Definition overflow_threshold : Q := inject_Z (2 ^ 1024 - 2 ^ 970).

(** [x ** n] on a float and a literal exponent: raises when the power
    leaves the binary64 range.  (The products and quotients of the script
    do not raise there: they give inf, which this model does not hold; the
    theorems on the cases bound every input so that no product comes near
    the range.) *)
Definition pypow (x : Q) (n : Z) : Script Q :=
  fun page =>
    if Qle_bool overflow_threshold (Qabs (x ^ n))
    then (page, inl OverflowError) else (page, inr (x ^ n)).

Definition log_step (label formula : string) (value : Q) (unit pages : string)
  : Script Datatypes.unit :=
  fun page => ((page ++ [Step label formula value unit pages])%list, inr tt).

Definition st_write (text : string) (value : Q) (unit : string)
  : Script Datatypes.unit :=
  fun page => ((page ++ [Line text value unit])%list, inr tt).

(** A case starts on an empty results area. *)
Definition run {A : Type} (m : Script A) : list Element * (PyError + A) := m [].

Definition page_of {A : Type} (m : Script A) : list Element := fst (run m).

Definition raised {A : Type} (m : Script A) : option PyError :=
  match snd (run m) with
  | inl e => Some e
  | inr _ => None
  end.

(** The value and unit shown under a label, first match. *)
Fixpoint shown (label : string) (page : list Element) : option (Q * string) :=
  match page with
  | [] => None
  | Step l _ v u _ :: rest =>
      if String.eqb l label then Some (v, u) else shown label rest
  | Line l v u :: rest =>
      if String.eqb l label then Some (v, u) else shown label rest
  end.

(** A value with its display unit, in SI base units. *)
Definition si_factor (unit : string) : Q :=
  if String.eqb unit "MPa" then 1e6
  else if String.eqb unit "GPa" then 1e9
  else if String.eqb unit "mm" then 1e-3
  else 1.

Definition in_SI (value : Q) (unit : string) : Q := value * si_factor unit.

(** ** Case 1: micromechanics of the composite bar (lines 54-86) *)

Module Case1.

Definition Area : Q := 0.08 * 0.05.

(** Inputs, in reading order: [Em] "Matrix E (GPa)" from 5.0, [Ef]
    "Fiber E (GPa)" from 200.0, [vm] "Matrix Vol Fraction" from 0.8, [vf]
    "Fiber Vol Fraction" from 0.2, [Force] "Axial Load (kN)" from 100.0,
    [L] "Length (m)" from 0.5.  Both moduli are computed before anything is
    rendered; the divisors that depend on the inputs are [Ef], [Em], the
    sum [vf/Ef + vm/Em] and [Ex*1e9]. *)
Definition main (Em Ef vm vf Force L : Q) : Script unit :=
  let Ex := vf * Ef + vm * Em in
  cf <- vf // Ef ;;
  cm <- vm // Em ;;
  Ey <- 1 // (cf + cm) ;;
  log_step "Longitudinal Modulus (Ex)" "E_x = v_f E_f + v_m E_m" Ex "GPa" "28" ;;
  log_step "Transverse Modulus (Ey)"
    "E_y = \left( \frac{v_f}{E_f} + \frac{v_m}{E_m} \right)^{-1}" Ey "GPa" "28" ;;
  let Sigma_x := (Force * 1000) / Area / 1e6 in
  Epsilon_x <- (Sigma_x * 1e6) // (Ex * 1e9) ;;
  let Delta_L := Epsilon_x * L * 1000 in
  log_step "Axial Stress" "\sigma_{xx} = \frac{F}{A}" Sigma_x "MPa" "30" ;;
  log_step "Lengthening" "\Delta L = \epsilon_{xx} L" Delta_L "mm" "30".

End Case1.

(** ** Case 2: bending of the Z-section (lines 91-138) *)

Module Case2.

Definition h : Q := 0.1.
Definition b : Q := 0.05.
Definition tf : Q := 0.002.
Definition tw : Q := 0.001.

(** Inputs: [Ef] "Flange E (GPa)" from 50.0, [Ew] "Web E (GPa)" from 15.0,
    [My] "Moment My (kNm)" from 1.0. *)
Definition EI_yy (Ef Ew : Q) : Q :=
  (2 * (tf * b * (h/2)^2 * Ef*1e9) + (Ew*1e9 * tw * h^3 / 12)).

Definition term_flange_zz : Q := (tf * b^3 / 12) + (tf * b * (b/2)^2).

Definition EI_zz (Ef : Q) : Q := 2 * term_flange_zz * Ef*1e9.

Definition EI_yz (Ef : Q) : Q := 2 * (Ef*1e9 * tf * b * (h/2) * (b/2)).

Definition D (Ef Ew : Q) : Q := EI_yy Ef Ew * EI_zz Ef - (EI_yz Ef)^2.

(** Line 126 squares [EI_yz] with [**], which can leave the float range;
    the three stresses divide by [D], the one divisor of the case that is
    not a literal.  The literal divisors and the powers of literals are
    written with [/] and [^]. *)
Definition main (Ef Ew My : Q) : Script unit :=
  log_step "Bending Stiffness EI_yy"
    "\overline{E}I_{yy} \approx 2(t_f b (\frac{h}{2})^2 E_f) + E_w \frac{t_w h^3}{12}"
    (EI_yy Ef Ew) "N.m^2" "64" ;;
  log_step "Bending Stiffness EI_zz"
    "\overline{E}I_{zz} \approx 2 E_f (I_{zz}^{local} + A d^2)"
    (EI_zz Ef) "N.m^2" "64" ;;
  log_step "Product Stiffness EI_yz"
    "\overline{E}I_{yz} = 2 E_f (t_f b) (\frac{h}{2}) (\frac{b}{2})"
    (EI_yz Ef) "N.m^2" "64" ;;
  EI_yz_2 <- pypow (EI_yz Ef) 2 ;;
  let D := EI_yy Ef Ew * EI_zz Ef - EI_yz_2 in
  w <- (Ew*1e9 * (EI_zz Ef * (My*1000) * (h/2))) // D ;;
  let sigma_web := w / 1e6 in
  log_step "Max Web Stress"
    "\sigma_{web} = E_w \frac{\overline{E}I_{zz} M_y z}{D}" sigma_web "MPa" "65" ;;
  j <- (Ef*1e9 * (EI_zz Ef * (My*1000) * (h/2))) // D ;;
  let sigma_flange_junc := j / 1e6 in
  t <- (Ef*1e9 * (EI_zz Ef * (My*1000) * (h/2) - EI_yz Ef * (My*1000) * b))
         // D ;;
  let sigma_flange_tip := t / 1e6 in
  log_step "Flange Stress (Junction)" "y=0" sigma_flange_junc "MPa" "66" ;;
  log_step "Flange Stress (Tip)" "y=0.05" sigma_flange_tip "MPa" "66".

End Case2.

(** ** Case 3: shearing of the closed trapezoid (lines 143-191) *)

Module Case3.

Definition h : Q := 0.3.
Definition b : Q := 0.25.

(** Web BC (vertical): 20 GPa, 1.5 mm. *)
Definition E_BC : Q := 20e9.
Definition t_BC : Q := 0.0015.
Definition I_BC : Q := E_BC * (t_BC * h^3 / 12).

(** Inclined walls AB/AC: 45 GPa, 2 mm.  [L_leg = np.sqrt(b**2 + (h/2)**2)]
    is the square root of [L_leg_sq]; the script never reads it. *)
Definition L_leg_sq : Q := b^2 + (h/2)^2.
Definition E_leg : Q := 45e9.
Definition t_leg : Q := 0.002.

(** The four results are literals ("Result from slide"). *)
Definition EI_yy : Q := 405e3.
Definition q_open_B : Q := 8.3e3.
Definition q_correction : Q := 9.4e3.
Definition q_final_AC_mid : Q := 1.1e3.

(** Input: "Shear Force Tz (kN)" from 2.0, turned into newtons and then
    never read. *)
Definition main (Tz_input : Q) : Script unit :=
  let Tz := Tz_input * 1000 in
  log_step "Bending Stiffness EI_yy" "\overline{E}I_{yy}" EI_yy "N.m^2" "71" ;;
  log_step "Open Shear Flow at B (q_o)" "q_o(B)" q_open_B "N/m" "72" ;;
  log_step "Correction Flux q(0)" "q(0) = \frac{-\oint p q_o ds}{2 A_h}"
    q_correction "N/m" "74" ;;
  st_write "Final Shear Flow (AC mid)" q_final_AC_mid "N/m".

End Case3.

(** ** Case 4: torsion of the rectangular box (lines 196-221) *)

Module Case4.

(** Input: "Torque Mx (kNm)" from 10.0. *)
Definition Mx (Mx_input : Q) : Q := Mx_input * 1000.

Definition h : Q := 0.1.
Definition b : Q := 0.2.

Definition Ah : Q := h * b.
Definition q (Mx_input : Q) : Q := Mx Mx_input / (2 * Ah).

(** Covers: 20 GPa, 2 mm.  Webs: 35 GPa, 1 mm. *)
Definition int_ds_mut : Q := 2 * (b / (20e9 * 0.002)) + 2 * (h / (35e9 * 0.001)).

Definition J_torsion : Q := (4 * Ah^2) / int_ds_mut.

(** "Slide 80 calc: -0.133e-3 m". *)
Definition u_warping : Q := -0.133.

Definition main (Mx_input : Q) : Script unit :=
  log_step "Shear Flow q" "q = \frac{M_x}{2 A_h}" (q Mx_input) "N/m" "78" ;;
  log_step "Torsional Stiffness"
    "\mu \overline{I}_T = \frac{4 A_h^2}{\oint \frac{ds}{\mu t}}"
    J_torsion "N.m^2" "78" ;;
  log_step "Warping Displacement at A" "u_x(A)" u_warping "mm" "80".

End Case4.

(** ** Case 5: torsion of the open C-section (lines 226-250) *)

Module Case5.

Definition b : Q := 0.025.
Definition h : Q := 0.05.
Definition tf : Q := 0.0015.
Definition tw : Q := 0.0025.
Definition Gf : Q := 20e9.
Definition Gw : Q := 15e9.

(** Two flanges, one web. *)
Definition J_torsion : Q := (2/3 * Gf * b * tf^3) + (1/3 * Gw * h * tw^3).

(** Input: "Torque (Nm)" from 10.0. *)
Definition theta_prime (Mx : Q) : Q := Mx / J_torsion.

Definition tau_web (Mx : Q) : Q := Gw * tw * theta_prime Mx / 1e6.
Definition tau_flange (Mx : Q) : Q := Gf * tf * theta_prime Mx / 1e6.

Definition main (Mx : Q) : Script unit :=
  log_step "Torsional Stiffness"
    "\mu \overline{I}_T = \sum \frac{1}{3} \mu_i l_i t_i^3" J_torsion "N.m^2" "83" ;;
  log_step "Twist Rate" "\theta_{,x}" (theta_prime Mx) "rad/m" "83" ;;
  log_step "Max Shear Stress (Web)" "\tau_{max}^w" (tau_web Mx) "MPa" "83" ;;
  log_step "Max Shear Stress (Flange)" "\tau_{max}^f" (tau_flange Mx) "MPa" "83".

End Case5.

(** ** Case 6: torsion of the I-section (lines 255-297) *)

Module Case6.

(** Input: "Torque (kN mm)" from 0.5; a kN mm is a N m. *)
Definition Mx (Mx_knmm : Q) : Q := Mx_knmm.

Definition h : Q := 0.1.
Definition b : Q := 0.05.
Definition tf : Q := 0.001.
Definition tw : Q := 0.005.
Definition Gf : Q := 16.3e9.
Definition Gw : Q := 20.9e9.

Definition term_f : Q := (2/3) * Gf * b * tf^3.
Definition term_w : Q := (1/3) * Gw * h * tw^3.
Definition J_torsion : Q := term_f + term_w.

Definition theta_prime (Mx_knmm : Q) : Q := Mx Mx_knmm / J_torsion.

Definition tau_w (Mx_knmm : Q) : Q := Gw * tw * theta_prime Mx_knmm / 1e6.
Definition tau_f (Mx_knmm : Q) : Q := Gf * tf * theta_prime Mx_knmm / 1e6.

Definition A_swept : Q := 0.5 * b * (h/2).

Definition u_warping (Mx_knmm : Q) : Q := -2 * A_swept * theta_prime Mx_knmm * 1000.

Definition main (Mx_knmm : Q) : Script unit :=
  log_step "Torsional Rigidity"
    "\mu \overline{I}_T = \frac{2}{3}\mu_f b t_f^3 + \frac{1}{3}\mu_w h t_w^3"
    J_torsion "N.m^2" "88" ;;
  log_step "Twist Rate" "\theta_{,x} = \frac{M_x}{\mu \overline{I}_T}"
    (theta_prime Mx_knmm) "rad/m" "88" ;;
  log_step "Stress Web" "\tau^w_{max}" (tau_w Mx_knmm) "MPa" "88" ;;
  log_step "Stress Flange" "\tau^f_{max}" (tau_f Mx_knmm) "MPa" "88" ;;
  log_step "Swept Area" "A_{R_p}" A_swept "m^2" "89" ;;
  log_step "Warping Displacement" "u_x = -2 A_{R_p} \theta_{,x}"
    (u_warping Mx_knmm) "mm" "89".

End Case6.

(** ** The sidebar and the choice of a case (lines 39-49 and the if chain) *)

(** The value each number input of the sidebar returns, by its label. *)
Definition Widgets : Type := string -> Q.

(** [st.sidebar.number_input(label, min_value)]: the widget returns a value
    not below its lower bound ([accepted] below). *)
Definition number_input (w : Widgets) (label : string) (min_value : Q) : Q :=
  w label.

(** The number inputs of the six cases with their lower bounds. *)
Definition number_inputs : list (string * Q) :=
  [ ("Matrix E (GPa)", 5.0); ("Fiber E (GPa)", 200.0);
    ("Matrix Vol Fraction", 0.8); ("Fiber Vol Fraction", 0.2);
    ("Axial Load (kN)", 100.0); ("Length (m)", 0.5);
    ("Flange E (GPa)", 50.0); ("Web E (GPa)", 15.0); ("Moment My (kNm)", 1.0);
    ("Shear Force Tz (kN)", 2.0);
    ("Torque Mx (kNm)", 10.0);
    ("Torque (Nm)", 10.0);
    ("Torque (kN mm)", 0.5) ].

(** What the widgets guarantee of the values they return. *)
Definition accepted (w : Widgets) : Prop :=
  Forall (fun input => snd input <= w (fst input)) number_inputs.

(** The options of the radio "Select Case Study:". *)
Definition options : list string :=
  [ "Case 1: Micromechanics (Bar)";
    "Case 2: Bending (Z-Section)";
    "Case 3: Shearing (Trapezoid)";
    "Case 4: Torsion (Rectangular Box)";
    "Case 5: Torsion (C-Section)";
    "Case 6: Exercise (I-Section)" ].

(** The if/elif chain on [case_selection]; a branch reads its own inputs. *)
Definition app (case_selection : string) (w : Widgets) : Script unit :=
  if String.eqb case_selection "Case 1: Micromechanics (Bar)" then
    Case1.main (number_input w "Matrix E (GPa)" 5.0)
      (number_input w "Fiber E (GPa)" 200.0)
      (number_input w "Matrix Vol Fraction" 0.8)
      (number_input w "Fiber Vol Fraction" 0.2)
      (number_input w "Axial Load (kN)" 100.0)
      (number_input w "Length (m)" 0.5)
  else if String.eqb case_selection "Case 2: Bending (Z-Section)" then
    Case2.main (number_input w "Flange E (GPa)" 50.0)
      (number_input w "Web E (GPa)" 15.0)
      (number_input w "Moment My (kNm)" 1.0)
  else if String.eqb case_selection "Case 3: Shearing (Trapezoid)" then
    Case3.main (number_input w "Shear Force Tz (kN)" 2.0)
  else if String.eqb case_selection "Case 4: Torsion (Rectangular Box)" then
    Case4.main (number_input w "Torque Mx (kNm)" 10.0)
  else if String.eqb case_selection "Case 5: Torsion (C-Section)" then
    Case5.main (number_input w "Torque (Nm)" 10.0)
  else if String.eqb case_selection "Case 6: Exercise (I-Section)" then
    Case6.main (number_input w "Torque (kN mm)" 0.5)
  else ret tt.

(** Inputs of practical size: accepted, and none above a million in the
    unit of its widget (GPa, kN, kNm, N m, m). *)
Definition practical (w : Widgets) : Prop :=
  Forall (fun input => snd input <= w (fst input) <= 1e6) number_inputs.

(** The values the form shows first: every widget at its lower bound. *)
Definition first_shown : Widgets :=
  fun label =>
    match find (fun input => String.eqb (fst input) label) number_inputs with
    | Some input => snd input
    | None => 0
    end.

(** ** The section formulas of the specification (its sections 3 and 4)

    Modelled from the spec: these definitions follow the specification's
    words, not the script; they are what the cases above are compared with.
    They are rational and serve the box of Case 4, whose walls run along
    the axes, and the shear-flow and warping formulas.  The torsion solver
    over every section, with inclined walls, the chain invariant and its
    error, is [Analyzer] below. *)

Module Engine.

(** A straight wall piece in the (y, z) plane.  The Young's modulus of the
    specification's Segment is read by none of the torsion, stress and
    warping formulas and is left out; the shear-flow formulas below take
    the modulus-weighted moments as data. *)
Record Segment : Type := {
  start : Q * Q;
  end_ : Q * Q;
  thickness : Q;
  shear_modulus : Q
}.

Definition dy (s : Segment) : Q := fst (end_ s) - fst (start s).
Definition dz (s : Segment) : Q := snd (end_ s) - snd (start s).

Definition axis_parallel (s : Segment) : Prop := dy s == 0 \/ dz s == 0.

(** Modelled from the spec, for walls along an axis only: there the
    length is rational and this sum is the Euclidean length (lemma
    [length_axis_parallel]); it is used on the rectangular box alone.  An
    inclined wall needs [Analyzer.length]. *)
Definition length (s : Segment) : Q := Qabs (dy s) + Qabs (dz s).

Inductive Topology : Type :=
| OPEN
| CLOSED_SINGLE_CELL.

Definition same_point (p r : Q * Q) : bool :=
  Qeq_bool (fst p) (fst r) && Qeq_bool (snd p) (snd r).

(** Modelled from the spec: closed when the first start and the last end
    coincide (tolerance 0).  It is applied to the box, whose walls chain;
    the chain invariant itself is [Analyzer.chained]. *)
Definition topology (section : list Segment) : Topology :=
  match section with
  | [] => OPEN
  | first :: _ =>
      if same_point (start first) (end_ (last section first))
      then CLOSED_SINGLE_CELL else OPEN
  end.

Definition sum_over (f : Segment -> Q) (section : list Segment) : Q :=
  fold_right (fun s acc => f s + acc) 0 section.

(** Signed area swept from the origin by one wall; summed round a loop it
    is the signed enclosed area. *)
Definition swept (s : Segment) : Q :=
  (fst (start s) * snd (end_ s) - fst (end_ s) * snd (start s)) / 2.

Definition enclosed_area (section : list Segment) : option Q :=
  match topology section with
  | CLOSED_SINGLE_CELL => Some (sum_over swept section)
  | OPEN => None
  end.

(** Section 4.3, OPEN: one thin strip. *)
Definition strip (s : Segment) : Q :=
  (1/3) * shear_modulus s * length s * thickness s ^ 3.

(** Section 4.3, CLOSED_SINGLE_CELL: the loop integral of ds/(G t). *)
Definition loop_integral (section : list Segment) : Q :=
  sum_over (fun s => length s / (shear_modulus s * thickness s)) section.

Definition GJ (section : list Segment) : Q :=
  match enclosed_area section with
  | None => sum_over strip section
  | Some area => 4 * area ^ 2 / loop_integral section
  end.

Record TorsionResult : Type := {
  rigidity : Q;
  twist_rate : Q
}.

(** Modelled from the spec: section 4.3 on walls of non-zero thickness and
    shear modulus, as those of the box are; the solver with the
    ZeroRigidityError path is [Analyzer.compute_torsion], and the two agree
    on the box (lemma [engine_agrees_on_box]). *)
Definition compute_torsion (section : list Segment) (torque : Q) : TorsionResult :=
  {| rigidity := GJ section; twist_rate := torque / GJ section |}.



(** Section 3, StiffnessTensor. *)
Record StiffnessTensor : Type := {
  EI_yy : Q;
  EI_zz : Q;
  EI_yz : Q
}.

Definition D (st : StiffnessTensor) : Q := EI_yy st * EI_zz st - EI_yz st ^ 2.

(** A position along the wall: the two modulus-weighted first moments
    accumulated from the start point up to it (the integrals of E t z and of
    E t y), the lever arm p of the wall there, and the arc length ds the
    position stands for in a loop integral. *)
Record Sample : Type := {
  moment_z : Q;
  moment_y : Q;
  lever : Q;
  ds : Q
}.

(** Section 4.2, step 1. *)
Definition q_open (shear_load_z : Q) (st : StiffnessTensor) (s : Sample) : Q :=
  (shear_load_z / D st) * (EI_zz st * moment_z s - EI_yz st * moment_y s).

Definition loop_moment (shear_load_z : Q) (st : StiffnessTensor)
  (samples : list Sample) : Q :=
  fold_right (fun s acc => lever s * q_open shear_load_z st s * ds s + acc) 0 samples.

(** Section 4.2, step 2. *)
Definition q0 (shear_load_z : Q) (st : StiffnessTensor) (area : Q)
  (samples : list Sample) : Q :=
  - loop_moment shear_load_z st samples / (2 * area).

Definition q_final (shear_load_z : Q) (st : StiffnessTensor) (area : Q)
  (samples : list Sample) (s : Sample) : Q :=
  q_open shear_load_z st s + q0 shear_load_z st area samples.

End Engine.

(** ** The sections of the torsion cases, as the specification's segment lists *)

Definition wall (p r : Q * Q) (t G : Q) : Engine.Segment :=
  {| Engine.start := p; Engine.end_ := r;
     Engine.thickness := t; Engine.shear_modulus := G |}.

(** A rectangular cell run counter-clockwise from the origin: the covers lie
    along y, the webs along z. *)
Definition rectangle (width height t_cover G_cover t_web G_web : Q)
  : list Engine.Segment :=
  [ wall (0, 0) (width, 0) t_cover G_cover;
    wall (width, 0) (width, height) t_web G_web;
    wall (width, height) (0, height) t_cover G_cover;
    wall (0, height) (0, 0) t_web G_web ].

(** Case 4: width [b], height [h]; covers 20 GPa and 2 mm, webs 35 GPa and
    1 mm, as in the literals of [Case4.int_ds_mut]. *)
Definition box_section : list Engine.Segment :=
  rectangle Case4.b Case4.h 0.002 20e9 0.001 35e9.

(** The box of the specification's end-to-end scenario, from its own
    numbers. *)
Definition scenario_box : list Engine.Segment :=
  rectangle 0.2 0.1 0.002 20e9 0.001 35e9.

(** The walls of Case 5 (flange, web, flange) and of Case 6 (two flanges
    centred on a web), each with its own thickness and shear modulus. *)
Definition c_walls : list Engine.Segment :=
  [ wall (Case5.b, 0) (0, 0) Case5.tf Case5.Gf;
    wall (0, 0) (0, Case5.h) Case5.tw Case5.Gw;
    wall (0, Case5.h) (Case5.b, Case5.h) Case5.tf Case5.Gf ].

Definition i_walls : list Engine.Segment :=
  [ wall (- (Case6.b / 2), 0) (Case6.b / 2, 0) Case6.tf Case6.Gf;
    wall (0, 0) (0, Case6.h) Case6.tw Case6.Gw;
    wall (- (Case6.b / 2), Case6.h) (Case6.b / 2, Case6.h) Case6.tf Case6.Gf ].

(** ** The torsion solver of the specification, over every section

    Modelled from the spec: the source computes torsion only for the three
    fixed sections of Cases 4 to 6 and has no [compute_torsion] over
    arbitrary sections.  This module follows sections 3, 4.3, 7 and 9 of
    the specification over the real numbers, so that the length of an
    inclined wall is its Euclidean length. *)

Module Analyzer.

Local Open Scope R_scope.

(** Modelled from the spec: section 7, the error kinds. *)
Inductive Error : Type :=
| MalformedTopologyError
| DegenerateSectionError
| DegenerateGeometryError
| ZeroRigidityError.

(** Modelled from the spec: section 3, Segment.  The Young's modulus is
    read by no torsion formula and is left out. *)
Record Segment : Type := {
  start : R * R;
  end_ : R * R;
  thickness : R;
  shear_modulus : R
}.

(** Modelled from the spec: section 3, "derived, not stored: length". *)
Definition length (s : Segment) : R :=
  sqrt ((fst (end_ s) - fst (start s))² + (snd (end_ s) - snd (start s))²).

(** Modelled from the spec: section 3, thickness > 0 and shear_modulus > 0. *)
Definition valid_segment (s : Segment) : Prop :=
  0 < thickness s /\ 0 < shear_modulus s.

(** Modelled from the spec: section 3, the invariant of a Section: the end
    of each segment is the start of the next (tolerance 0). *)
Fixpoint chained (section : list Segment) : Prop :=
  match section with
  | [] => True
  | s1 :: rest =>
      match rest with
      | [] => True
      | s2 :: _ => end_ s1 = start s2 /\ chained rest
      end
  end.

(** Modelled from the spec: a Section is a segment list that passed
    construction: valid segments that chain. *)
Definition is_section (section : list Segment) : Prop :=
  Forall valid_segment section /\ chained section.

Definition point_eq_dec (p r : R * R) : {p = r} + {p <> r}.
Proof.
  decide equality; apply Req_EM_T.
Defined.

Definition sum_over (f : Segment -> R) (section : list Segment) : R :=
  fold_right (fun s acc => f s + acc) 0 section.

(** Signed area swept from the origin by one wall. *)
Definition swept (s : Segment) : R :=
  (fst (start s) * snd (end_ s) - fst (end_ s) * snd (start s)) / 2.

(** Modelled from the spec: sections 3 and 9, the topology as a tagged
    variant; the closed cell carries its signed enclosed area. *)
Inductive Topology : Type :=
| OPEN
| CLOSED_SINGLE_CELL (enclosed_area : R).

Definition topology (section : list Segment) : Topology :=
  match section with
  | [] => OPEN
  | first :: _ =>
      if point_eq_dec (start first) (end_ (last section first))
      then CLOSED_SINGLE_CELL (sum_over swept section) else OPEN
  end.

Definition zero_wall (s : Segment) : bool :=
  if Req_EM_T (thickness s) 0 then true
  else if Req_EM_T (shear_modulus s) 0 then true else false.

Record TorsionResult : Type := {
  rigidity : R;
  twist_rate : R
}.

(** Modelled from the spec: section 4.3, [compute_torsion(section, torque)]:
    the re-validation that fails with ZeroRigidityError, then the rigidity
    by topology and the twist rate torque / GJ. *)
Definition compute_torsion (section : list Segment) (torque : R)
  : Error + TorsionResult :=
  if existsb zero_wall section then inl ZeroRigidityError
  else
    let GJ :=
      match topology section with
      | OPEN =>
          sum_over (fun s => (1/3) * shear_modulus s * length s * thickness s ^ 3)
            section
      | CLOSED_SINGLE_CELL enclosed_area =>
          4 * enclosed_area ^ 2
          / sum_over (fun s => length s / (shear_modulus s * thickness s)) section
      end in
    inr {| rigidity := GJ; twist_rate := torque / GJ |}.

End Analyzer.

(** The walls of a case, with the numbers of the script read as reals. *)
Definition real_wall (s : Engine.Segment) : Analyzer.Segment :=
  {| Analyzer.start := (Q2R (fst (Engine.start s)), Q2R (snd (Engine.start s)));
     Analyzer.end_ := (Q2R (fst (Engine.end_ s)), Q2R (snd (Engine.end_ s)));
     Analyzer.thickness := Q2R (Engine.thickness s);
     Analyzer.shear_modulus := Q2R (Engine.shear_modulus s) |}.

(** ** Proof support *)

(** Decimal literals with an exponent hold a power of ten; evaluate it, in
    the goal and in the hypotheses, so that [field] and [lra] see numerals. *)
Ltac lits :=
  repeat match goal with
    | |- context [Z.pow_pos ?a ?n] =>
        let v := eval vm_compute in (Z.pow_pos a n) in
        change (Z.pow_pos a n) with v
    | H : context [Z.pow_pos ?a ?n] |- _ =>
        let v := eval vm_compute in (Z.pow_pos a n) in
        change (Z.pow_pos a n) with v in H
    end.

(** A closed equation or comparison between rationals, by evaluation. *)
Ltac by_evaluation :=
  first
    [ vm_compute; reflexivity
    | apply Qle_bool_imp_le; vm_compute; reflexivity
    | apply Qlt_alt; vm_compute; reflexivity
    | let H := fresh in intro H; vm_compute in H; discriminate H ].

Create HintDb sections discriminated.

(** ** The runtime *)

Lemma truediv_ok (x y : Q) (page : list Element) :
  ~ y == 0 -> truediv x y page = (page, inr (x / y)).
Proof.
  intros Hy. unfold truediv.
  destruct (Qeq_bool y 0) eqn:E; [ | reflexivity ].
  apply Qeq_bool_iff in E. contradiction.
Qed.

Lemma truediv_by_zero (x y : Q) (page : list Element) :
  y == 0 -> truediv x y page = (page, inl ZeroDivisionError).
Proof.
  intros Hy. unfold truediv.
  apply Qeq_bool_iff in Hy. now rewrite Hy.
Qed.

(** Every divisor written with [/] in Cases 4 to 6 is fixed by literals and
    is not zero; the divisors that depend on a value read, in Cases 1 and 2,
    are taken with [//]. *)
Lemma fixed_divisors_nonzero :
  ~ 2 * Case4.Ah == 0 /\ ~ Case4.int_ds_mut == 0 /\
  ~ Case5.J_torsion == 0 /\ ~ Case6.J_torsion == 0.
Proof.
  repeat split; by_evaluation.
Qed.

(** ** The specification's formulas *)

Lemma length_axis_parallel (s : Engine.Segment) :
  Engine.axis_parallel s ->
  0 <= Engine.length s /\
  Engine.length s ^ 2 == Engine.dy s ^ 2 + Engine.dz s ^ 2.
Proof.
  unfold Engine.axis_parallel, Engine.length.
  generalize (Engine.dy s) (Engine.dz s). intros a c Hac.
  split.
  - generalize (Qabs_nonneg a) (Qabs_nonneg c). lra.
  - assert (Hsq : forall x, Qabs x ^ 2 == x ^ 2).
    { intros x. apply Qabs_case; intros _; ring. }
    destruct Hac as [Ha | Hc].
    + rewrite Ha. change (Qabs 0) with 0. rewrite <- (Hsq c). ring.
    + rewrite Hc. change (Qabs 0) with 0. rewrite <- (Hsq a). ring.
Qed.

Lemma rectangle_axis_parallel (w h tc Gc tw Gw : Q) :
  Forall Engine.axis_parallel (rectangle w h tc Gc tw Gw).
Proof.
  unfold rectangle.
  repeat (apply Forall_cons;
          [ unfold Engine.axis_parallel, Engine.dy, Engine.dz;
            cbn [wall Engine.start Engine.end_ fst snd];
            first [ left; ring | right; ring ] | ]).
  apply Forall_nil.
Qed.

#[local] Hint Resolve rectangle_axis_parallel : sections.

Lemma q_open_linear (T1 T2 k : Q) (st : Engine.StiffnessTensor) (s : Engine.Sample) :
  T2 == k * T1 -> Engine.q_open T2 st s == k * Engine.q_open T1 st s.
Proof.
  intros HT. unfold Engine.q_open, Qdiv. rewrite HT. ring.
Qed.

Lemma loop_moment_linear (T1 T2 k : Q) (st : Engine.StiffnessTensor)
  (samples : list Engine.Sample) :
  T2 == k * T1 ->
  Engine.loop_moment T2 st samples == k * Engine.loop_moment T1 st samples.
Proof.
  intros HT. induction samples as [ | s rest IH ]; cbn [Engine.loop_moment fold_right].
  - ring.
  - fold (Engine.loop_moment T2 st rest). fold (Engine.loop_moment T1 st rest).
    rewrite IH, (q_open_linear T1 T2 k st s HT). ring.
Qed.

Lemma q0_linear (T1 T2 k : Q) (st : Engine.StiffnessTensor) (area : Q)
  (samples : list Engine.Sample) :
  T2 == k * T1 ->
  Engine.q0 T2 st area samples == k * Engine.q0 T1 st area samples.
Proof.
  intros HT. unfold Engine.q0, Qdiv.
  rewrite (loop_moment_linear T1 T2 k st samples HT). ring.
Qed.

Lemma q_final_linear (T1 T2 k : Q) (st : Engine.StiffnessTensor) (area : Q)
  (samples : list Engine.Sample) (s : Engine.Sample) :
  T2 == k * T1 ->
  Engine.q_final T2 st area samples s == k * Engine.q_final T1 st area samples s.
Proof.
  intros HT. unfold Engine.q_final.
  rewrite (q_open_linear T1 T2 k st s HT), (q0_linear T1 T2 k st area samples HT).
  ring.
Qed.

(** Step 1 starts from zero: nothing is accumulated at the free edge or cut. *)
Lemma q_open_zero_at_start (T : Q) (st : Engine.StiffnessTensor) (p l : Q) :
  Engine.q_open T st
    {| Engine.moment_z := 0; Engine.moment_y := 0;
       Engine.lever := p; Engine.ds := l |} == 0.
Proof.
  unfold Engine.q_open. cbn [Engine.moment_z Engine.moment_y]. ring.
Qed.


(** A quantity that doubles cannot keep a non-zero value. *)
Lemma doubling_moves (x c : Q) : ~ c == 0 -> ~ (x == c /\ 2 * x == c).
Proof.
  intros Hc [H1 H2]. apply Hc. lra.
Qed.

(** ** Torsional rigidity *)

Lemma box_section_closed :
  Engine.topology box_section = Engine.CLOSED_SINGLE_CELL /\
  Forall Engine.axis_parallel box_section.
Proof.
  split; [ reflexivity | unfold box_section; auto with sections ].
Qed.

(** C6.  The end-to-end box scenario: at the torque of 10 kNm, that is
    10,000 N m, Case 4 shows the shear flow torque/(2 * 0.02) = 250,000 N/m;
    and the rigidity that the loop-integral formula gives for the scenario's
    box (width 0.2, height 0.1, covers 20 GPa and 2 mm, webs 35 GPa and
    1 mm) is within 1% of the rigidity of the worked example, Case 4's
    [J_torsion] = 1120000/11 N m^2. *)
Theorem box_torsion_scenario :
  Case4.Mx 10 == 10000 /\
  shown "Shear Flow q" (page_of (Case4.main 10)) = Some (Case4.q 10, "N/m") /\
  Case4.q 10 == 10000 / (2 * 0.02) /\
  Case4.q 10 == 250000 /\
  Engine.topology scenario_box = Engine.CLOSED_SINGLE_CELL /\
  Case4.J_torsion == 1120000 # 11 /\
  Qabs (Engine.rigidity (Engine.compute_torsion scenario_box 10000)
        - Case4.J_torsion)
    <= 0.01 * Qabs Case4.J_torsion.
Proof.
  split; [ by_evaluation | ].
  split; [ reflexivity | ].
  split; [ by_evaluation | ].
  split; [ by_evaluation | ].
  split; [ reflexivity | ].
  split; [ by_evaluation | ].
  by_evaluation.
Qed.

(** ** Shear stress in the open sections *)




(** ** Results that are literals: Case 3 and the warping of Case 4 *)

(** C9.  Whatever shear force is read, Case 3 shows EI_yy = 405e3 N m^2,
    the open shear flow at B = 8.3e3 N/m, the correction flux = 9.4e3 N/m
    and the final flow at AC mid = 1.1e3 N/m, and ends without an
    exception; whatever torque is read, Case 4 shows the warping
    displacement -0.133 mm. *)
Theorem literal_results_ignore_loads :
  (forall Tz_input : Q,
     run (Case3.main Tz_input)
     = ([ Step "Bending Stiffness EI_yy" "\overline{E}I_{yy}" 405e3 "N.m^2" "71";
          Step "Open Shear Flow at B (q_o)" "q_o(B)" 8.3e3 "N/m" "72";
          Step "Correction Flux q(0)" "q(0) = \frac{-\oint p q_o ds}{2 A_h}"
            9.4e3 "N/m" "74";
          Line "Final Shear Flow (AC mid)" 1.1e3 "N/m" ],
        inr tt)) /\
  (forall Mx_input : Q,
     shown "Warping Displacement at A" (page_of (Case4.main Mx_input))
     = Some (-0.133, "mm")).
Proof.
  split; intros load; reflexivity.
Qed.

(** C3.  Case 3 shows 8.3e3 N/m as the open shear flow at B for every shear
    force read.  The formula of the claim is proportional to the load, so
    for no stiffness tensor and no accumulated moments does it give 8.3e3
    both at the first load of 2 kN and at 4 kN: the script leaves the
    formula as soon as the load is changed. *)
Theorem case3_open_flow_ignores_load :
  (forall Tz_input : Q,
     shown "Open Shear Flow at B (q_o)" (page_of (Case3.main Tz_input))
     = Some (Case3.q_open_B, "N/m")) /\
  Case3.q_open_B == 8300 /\
  (forall (st : Engine.StiffnessTensor) (at_B : Engine.Sample),
     ~ (Engine.q_open (2 * 1000) st at_B == Case3.q_open_B /\
        Engine.q_open (4 * 1000) st at_B == Case3.q_open_B)).
Proof.
  split; [ intros Tz_input; reflexivity | ].
  split; [ by_evaluation | ].
  intros st at_B [H2 H4].
  apply (doubling_moves (Engine.q_open (2 * 1000) st at_B) Case3.q_open_B).
  - by_evaluation.
  - split; [ exact H2 | ].
    rewrite <- H4. symmetry. apply q_open_linear. by_evaluation.
Qed.

(** C4.  Case 3 shows 9.4e3 N/m as the correction flux and 1.1e3 N/m as the
    final flow at AC mid for every shear force read.  The correction flow
    of the claim, minus the loop integral of p * q_open over twice the
    enclosed area, and the final flow q_open + q0 are proportional to the
    load, so for no section data do they give these values both at 2 kN
    and at 4 kN. *)
Theorem case3_closing_flow_ignores_load :
  (forall Tz_input : Q,
     shown "Correction Flux q(0)" (page_of (Case3.main Tz_input))
       = Some (Case3.q_correction, "N/m") /\
     shown "Final Shear Flow (AC mid)" (page_of (Case3.main Tz_input))
       = Some (Case3.q_final_AC_mid, "N/m")) /\
  Case3.q_correction == 9400 /\
  Case3.q_final_AC_mid == 1100 /\
  (forall (st : Engine.StiffnessTensor) (area : Q) (loop : list Engine.Sample),
     ~ (Engine.q0 (2 * 1000) st area loop == Case3.q_correction /\
        Engine.q0 (4 * 1000) st area loop == Case3.q_correction)) /\
  (forall (st : Engine.StiffnessTensor) (area : Q) (loop : list Engine.Sample)
          (at_AC_mid : Engine.Sample),
     ~ (Engine.q_final (2 * 1000) st area loop at_AC_mid == Case3.q_final_AC_mid /\
        Engine.q_final (4 * 1000) st area loop at_AC_mid == Case3.q_final_AC_mid)).
Proof.
  split; [ intros Tz_input; split; reflexivity | ].
  split; [ by_evaluation | ].
  split; [ by_evaluation | ].
  split.
  - intros st area loop [H2 H4].
    apply (doubling_moves (Engine.q0 (2 * 1000) st area loop) Case3.q_correction).
    + by_evaluation.
    + split; [ exact H2 | ].
      rewrite <- H4. symmetry. apply q0_linear. by_evaluation.
  - intros st area loop at_AC_mid [H2 H4].
    apply (doubling_moves (Engine.q_final (2 * 1000) st area loop at_AC_mid)
             Case3.q_final_AC_mid).
    + by_evaluation.
    + split; [ exact H2 | ].
      rewrite <- H4. symmetry. apply q_final_linear. by_evaluation.
Qed.


(** ** The torsion solver of the specification *)

Ltac as_reals := unfold Q2R; simpl; Lra.lra.

Lemma no_zero_wall (section : list Analyzer.Segment) :
  Forall Analyzer.valid_segment section ->
  existsb Analyzer.zero_wall section = false.
Proof.
  induction 1 as [ | s rest [Ht HG] _ IH ]; [ reflexivity | ].
  cbn [existsb]. rewrite IH. unfold Analyzer.zero_wall.
  destruct (Req_EM_T (Analyzer.thickness s) 0) as [H0 | _]; [ Lra.lra | ].
  destruct (Req_EM_T (Analyzer.shear_modulus s) 0) as [H0 | _]; [ Lra.lra | ].
  reflexivity.
Qed.

(** A wall with a zero thickness or shear modulus is refused. *)
Lemma zero_wall_refused (section : list Analyzer.Segment) (torque : R) :
  Exists (fun s => Analyzer.thickness s = 0%R \/ Analyzer.shear_modulus s = 0%R)
    section ->
  Analyzer.compute_torsion section torque = inl Analyzer.ZeroRigidityError.
Proof.
  intros Hzero. unfold Analyzer.compute_torsion.
  assert (Hb : existsb Analyzer.zero_wall section = true).
  { apply existsb_exists. apply Exists_exists in Hzero.
    destruct Hzero as (s & Hin & Hs). exists s. split; [ exact Hin | ].
    unfold Analyzer.zero_wall.
    destruct (Req_EM_T (Analyzer.thickness s) 0); [ reflexivity | ].
    destruct (Req_EM_T (Analyzer.shear_modulus s) 0); [ reflexivity | ].
    tauto. }
  now rewrite Hb.
Qed.

Lemma length_along_y (s : Analyzer.Segment) :
  snd (Analyzer.end_ s) = snd (Analyzer.start s) ->
  Analyzer.length s = Rabs (fst (Analyzer.end_ s) - fst (Analyzer.start s)).
Proof.
  intros Hz. unfold Analyzer.length. rewrite Hz.
  rewrite <- sqrt_Rsqr_abs. f_equal. unfold Rsqr. Lra.lra.
Qed.

Lemma length_along_z (s : Analyzer.Segment) :
  fst (Analyzer.end_ s) = fst (Analyzer.start s) ->
  Analyzer.length s = Rabs (snd (Analyzer.end_ s) - snd (Analyzer.start s)).
Proof.
  intros Hy. unfold Analyzer.length. rewrite Hy.
  rewrite <- sqrt_Rsqr_abs. f_equal. unfold Rsqr. Lra.lra.
Qed.

(** An inclined wall: from (3, 4) to the origin the length is 5. *)
Lemma length_inclined :
  Analyzer.length
    {| Analyzer.start := (3, 4)%R; Analyzer.end_ := (0, 0)%R;
       Analyzer.thickness := 1%R; Analyzer.shear_modulus := 1%R |} = 5%R.
Proof.
  unfold Analyzer.length. cbn [Analyzer.start Analyzer.end_ fst snd].
  replace ((0 - 3)² + (0 - 4)²)%R with (5 * 5)%R by (unfold Rsqr; Lra.lra).
  apply sqrt_square. Lra.lra.
Qed.

Lemma closed_area (section : list Analyzer.Segment) (area : R) :
  Analyzer.topology section = Analyzer.CLOSED_SINGLE_CELL area ->
  area = Analyzer.sum_over Analyzer.swept section.
Proof.
  unfold Analyzer.topology. destruct section as [ | first rest ]; [ discriminate | ].
  destruct (Analyzer.point_eq_dec _ _); [ | discriminate ].
  intros H. injection H as <-. reflexivity.
Qed.

Ltac wall_length :=
  first [ rewrite length_along_y by reflexivity
        | rewrite length_along_z by reflexivity ];
  cbn [real_wall wall Analyzer.start Analyzer.end_ Engine.start Engine.end_
         fst snd];
  unfold Rabs; destruct Rcase_abs; unfold Q2R in *; simpl in *; Lra.lra.

(** The lengths of the walls of the three cases, read as reals. *)
Lemma case_wall_lengths :
  map Analyzer.length (map real_wall box_section)
    = [Q2R Case4.b; Q2R Case4.h; Q2R Case4.b; Q2R Case4.h] /\
  map Analyzer.length (map real_wall c_walls)
    = [Q2R Case5.b; Q2R Case5.h; Q2R Case5.b] /\
  map Analyzer.length (map real_wall i_walls)
    = [Q2R Case6.b; Q2R Case6.h; Q2R Case6.b].
Proof.
  repeat split; cbn [map box_section rectangle c_walls i_walls];
    repeat match goal with
      | |- (_ :: _) = (_ :: _) => apply (f_equal2 cons); [ wall_length | ]
      end; reflexivity.
Qed.

Ltac eval_lengths :=
  repeat first [ rewrite length_along_y by reflexivity
               | rewrite length_along_z by reflexivity ];
  cbn [real_wall wall Analyzer.start Analyzer.end_ Analyzer.thickness
         Analyzer.shear_modulus Engine.start Engine.end_ Engine.thickness
         Engine.shear_modulus fst snd];
  repeat match goal with
    | |- context [Rabs ?x] =>
        first [ rewrite (Rabs_pos_eq x) by as_reals
              | rewrite (Rabs_left1 x) by as_reals ]
    end.

Lemma box_cell_facts :
  Analyzer.is_section (map real_wall box_section) /\
  Analyzer.topology (map real_wall box_section)
    = Analyzer.CLOSED_SINGLE_CELL (Q2R Case4.Ah) /\
  Analyzer.sum_over
    (fun s => (Analyzer.length s
               / (Analyzer.shear_modulus s * Analyzer.thickness s))%R)
    (map real_wall box_section) = Q2R Case4.int_ds_mut.
Proof.
  split; [ | split ].
  - split.
    + cbn [map box_section rectangle].
      repeat (apply Forall_cons; [ split; cbn; as_reals | ]). apply Forall_nil.
    + cbn [map box_section rectangle Analyzer.chained real_wall wall
             Analyzer.start Analyzer.end_ Engine.start Engine.end_ fst snd].
      repeat split.
  - cbn [map box_section rectangle]. unfold Analyzer.topology.
    cbn [last]. destruct (Analyzer.point_eq_dec _ _) as [_ | Hne].
    + f_equal. unfold Analyzer.sum_over, Analyzer.swept.
      cbn [fold_right real_wall wall Analyzer.start Analyzer.end_ Engine.start
             Engine.end_ fst snd].
      as_reals.
    + exfalso. apply Hne. reflexivity.
  - cbn [map box_section rectangle]. unfold Analyzer.sum_over.
    cbn [fold_right]. eval_lengths. as_reals.
Qed.

Lemma c_section_facts :
  Analyzer.is_section (map real_wall c_walls) /\
  Analyzer.topology (map real_wall c_walls) = Analyzer.OPEN /\
  Analyzer.sum_over
    (fun s => (1 / 3 * Analyzer.shear_modulus s * Analyzer.length s
               * Analyzer.thickness s ^ 3)%R)
    (map real_wall c_walls) = Q2R Case5.J_torsion.
Proof.
  split; [ | split ].
  - split.
    + cbn [map c_walls].
      repeat (apply Forall_cons; [ split; cbn; as_reals | ]). apply Forall_nil.
    + cbn [map c_walls Analyzer.chained real_wall wall
             Analyzer.start Analyzer.end_ Engine.start Engine.end_ fst snd].
      repeat split.
  - cbn [map c_walls]. unfold Analyzer.topology.
    cbn [last]. destruct (Analyzer.point_eq_dec _ _) as [Heq | _];
      [ | reflexivity ].
    exfalso. cbn [real_wall wall Analyzer.start Analyzer.end_ Engine.start
                    Engine.end_ fst snd] in Heq.
    injection Heq as Hz. revert Hz. as_reals.
  - cbn [map c_walls]. unfold Analyzer.sum_over.
    cbn [fold_right]. eval_lengths. as_reals.
Qed.

(** The three walls of the I-section do not form one polyline, so they are
    no Section; the sum over its strips is still what Case 6 computes. *)
Lemma i_walls_facts :
  ~ Analyzer.chained (map real_wall i_walls) /\
  Analyzer.sum_over
    (fun s => (1 / 3 * Analyzer.shear_modulus s * Analyzer.length s
               * Analyzer.thickness s ^ 3)%R)
    (map real_wall i_walls) = Q2R Case6.J_torsion.
Proof.
  split.
  - cbn [map i_walls Analyzer.chained real_wall wall
           Analyzer.start Analyzer.end_ Engine.start Engine.end_ fst snd].
    intros [Heq _]. injection Heq as Hy. revert Hy. as_reals.
  - cbn [map i_walls]. unfold Analyzer.sum_over.
    cbn [fold_right]. eval_lengths. as_reals.
Qed.

(** C1.  For every section (valid segments that chain) that is a closed
    single cell, and every torque, [compute_torsion] returns the rigidity
    4 * enclosed_area^2 over the loop integral of ds/(G t), the loop
    integral being the sum over the segments of
    length_i/(shear_modulus_i * thickness_i), with the Euclidean length of
    each segment.  The closed cell of the source, the box of Case 4, is an
    instance: its walls form such a section, [Ah] is its enclosed area,
    [int_ds_mut] is that sum, and for every torque read the rigidity
    Case 4 shows, [J_torsion], is the one [compute_torsion] returns. *)
Theorem closed_cell_rigidity_is_loop_formula :
  (forall (section : list Analyzer.Segment) (area torque : R),
     Analyzer.is_section section ->
     Analyzer.topology section = Analyzer.CLOSED_SINGLE_CELL area ->
     area = Analyzer.sum_over Analyzer.swept section /\
     Analyzer.compute_torsion section torque
     = inr {| Analyzer.rigidity :=
                (4 * area ^ 2
                 / Analyzer.sum_over
                     (fun s => Analyzer.length s
                               / (Analyzer.shear_modulus s * Analyzer.thickness s))
                     section)%R;
              Analyzer.twist_rate :=
                (torque
                 / (4 * area ^ 2
                    / Analyzer.sum_over
                        (fun s => Analyzer.length s
                                  / (Analyzer.shear_modulus s
                                     * Analyzer.thickness s))
                        section))%R |}) /\
  (forall Mx_input : Q,
     shown "Torsional Stiffness" (page_of (Case4.main Mx_input))
       = Some (Case4.J_torsion, "N.m^2") /\
     Analyzer.is_section (map real_wall box_section) /\
     Analyzer.topology (map real_wall box_section)
       = Analyzer.CLOSED_SINGLE_CELL (Q2R Case4.Ah) /\
     Analyzer.sum_over
       (fun s => (Analyzer.length s
                  / (Analyzer.shear_modulus s * Analyzer.thickness s))%R)
       (map real_wall box_section) = Q2R Case4.int_ds_mut /\
     Analyzer.compute_torsion (map real_wall box_section)
       (Q2R (Case4.Mx Mx_input))
     = inr {| Analyzer.rigidity := Q2R Case4.J_torsion;
              Analyzer.twist_rate :=
                (Q2R (Case4.Mx Mx_input) / Q2R Case4.J_torsion)%R |}).
Proof.
  assert (Hgeneral :
    forall (section : list Analyzer.Segment) (area torque : R),
      Analyzer.is_section section ->
      Analyzer.topology section = Analyzer.CLOSED_SINGLE_CELL area ->
      Analyzer.compute_torsion section torque
      = inr {| Analyzer.rigidity :=
                 (4 * area ^ 2
                  / Analyzer.sum_over
                      (fun s => Analyzer.length s
                                / (Analyzer.shear_modulus s * Analyzer.thickness s))
                      section)%R;
               Analyzer.twist_rate :=
                 (torque
                  / (4 * area ^ 2
                     / Analyzer.sum_over
                         (fun s => Analyzer.length s
                                   / (Analyzer.shear_modulus s
                                      * Analyzer.thickness s))
                         section))%R |}).
  { intros section area torque [Hvalid _] Htop.
    unfold Analyzer.compute_torsion.
    rewrite (no_zero_wall section Hvalid), Htop. reflexivity. }
  split.
  - intros section area torque Hsec Htop.
    split; [ apply closed_area, Htop | apply Hgeneral; assumption ].
  - intros Mx_input.
    destruct box_cell_facts as (Hsec & Htop & Hloop).
    split; [ reflexivity | ].
    split; [ exact Hsec | ].
    split; [ exact Htop | ].
    split; [ exact Hloop | ].
    rewrite (Hgeneral _ (Q2R Case4.Ah) _ Hsec Htop), Hloop.
    assert (HJ : (4 * Q2R Case4.Ah ^ 2 / Q2R Case4.int_ds_mut)%R
                 = Q2R Case4.J_torsion) by as_reals.
    rewrite HJ. reflexivity.
Qed.

(** The box of Case 4 at the torque of 10 kNm. *)
Lemma closed_cell_rigidity_is_loop_formula_witness :
  Analyzer.compute_torsion (map real_wall box_section) 10000
  = inr {| Analyzer.rigidity :=
             (4 * Q2R Case4.Ah ^ 2
              / Analyzer.sum_over
                  (fun s => Analyzer.length s
                            / (Analyzer.shear_modulus s * Analyzer.thickness s))
                  (map real_wall box_section))%R;
           Analyzer.twist_rate :=
             (10000
              / (4 * Q2R Case4.Ah ^ 2
                 / Analyzer.sum_over
                     (fun s => Analyzer.length s
                               / (Analyzer.shear_modulus s
                                  * Analyzer.thickness s))
                     (map real_wall box_section)))%R |}.
Proof.
  destruct closed_cell_rigidity_is_loop_formula as [Hgeneral _].
  destruct box_cell_facts as (Hsec & Htop & _).
  apply (Hgeneral _ (Q2R Case4.Ah) 10000%R Hsec Htop).
Defined.

(** C2.  For every section (valid segments that chain) that is open, and
    every torque, [compute_torsion] returns the rigidity that is the sum
    over all segments of (1/3) * shear_modulus_i * length_i * thickness_i^3,
    each segment with its own shear modulus and thickness and its Euclidean
    length.  The C-section of Case 5 is an instance: its walls form an open
    section and the rigidity Case 5 shows, [J_torsion], is the one
    [compute_torsion] returns.  The three walls of the I-section of Case 6
    do not chain into one polyline; the rigidity Case 6 shows is the same
    sum over its three walls. *)
Theorem open_section_rigidity_is_strip_sum :
  (forall (section : list Analyzer.Segment) (torque : R),
     Analyzer.is_section section ->
     Analyzer.topology section = Analyzer.OPEN ->
     Analyzer.compute_torsion section torque
     = inr {| Analyzer.rigidity :=
                Analyzer.sum_over
                  (fun s => (1 / 3 * Analyzer.shear_modulus s * Analyzer.length s
                             * Analyzer.thickness s ^ 3)%R)
                  section;
              Analyzer.twist_rate :=
                (torque
                 / Analyzer.sum_over
                     (fun s => 1 / 3 * Analyzer.shear_modulus s
                               * Analyzer.length s * Analyzer.thickness s ^ 3)
                     section)%R |}) /\
  (forall Mx : Q,
     shown "Torsional Stiffness" (page_of (Case5.main Mx))
       = Some (Case5.J_torsion, "N.m^2") /\
     Analyzer.is_section (map real_wall c_walls) /\
     Analyzer.topology (map real_wall c_walls) = Analyzer.OPEN /\
     Analyzer.compute_torsion (map real_wall c_walls) (Q2R Mx)
     = inr {| Analyzer.rigidity := Q2R Case5.J_torsion;
              Analyzer.twist_rate := (Q2R Mx / Q2R Case5.J_torsion)%R |}) /\
  (forall Mx_knmm : Q,
     shown "Torsional Rigidity" (page_of (Case6.main Mx_knmm))
       = Some (Case6.J_torsion, "N.m^2") /\
     ~ Analyzer.chained (map real_wall i_walls) /\
     Analyzer.sum_over
       (fun s => (1 / 3 * Analyzer.shear_modulus s * Analyzer.length s
                  * Analyzer.thickness s ^ 3)%R)
       (map real_wall i_walls) = Q2R Case6.J_torsion).
Proof.
  assert (Hgeneral :
    forall (section : list Analyzer.Segment) (torque : R),
      Analyzer.is_section section ->
      Analyzer.topology section = Analyzer.OPEN ->
      Analyzer.compute_torsion section torque
      = inr {| Analyzer.rigidity :=
                 Analyzer.sum_over
                   (fun s => (1 / 3 * Analyzer.shear_modulus s * Analyzer.length s
                              * Analyzer.thickness s ^ 3)%R)
                   section;
               Analyzer.twist_rate :=
                 (torque
                  / Analyzer.sum_over
                      (fun s => 1 / 3 * Analyzer.shear_modulus s
                                * Analyzer.length s * Analyzer.thickness s ^ 3)
                      section)%R |}).
  { intros section torque [Hvalid _] Htop.
    unfold Analyzer.compute_torsion.
    rewrite (no_zero_wall section Hvalid), Htop. reflexivity. }
  split; [ exact Hgeneral | split ].
  - intros Mx.
    destruct c_section_facts as (Hsec & Htop & Hsum).
    split; [ reflexivity | ].
    split; [ exact Hsec | ].
    split; [ exact Htop | ].
    rewrite (Hgeneral _ _ Hsec Htop), Hsum. reflexivity.
  - intros Mx_knmm.
    destruct i_walls_facts as (Hchain & Hsum).
    split; [ reflexivity | ].
    split; [ exact Hchain | exact Hsum ].
Qed.

(** The C-section of Case 5 at the torque of 10 N m. *)
Lemma open_section_rigidity_is_strip_sum_witness :
  Analyzer.compute_torsion (map real_wall c_walls) 10
  = inr {| Analyzer.rigidity :=
             Analyzer.sum_over
               (fun s => (1 / 3 * Analyzer.shear_modulus s * Analyzer.length s
                          * Analyzer.thickness s ^ 3)%R)
               (map real_wall c_walls);
           Analyzer.twist_rate :=
             (10
              / Analyzer.sum_over
                  (fun s => 1 / 3 * Analyzer.shear_modulus s
                            * Analyzer.length s * Analyzer.thickness s ^ 3)
                  (map real_wall c_walls))%R |}.
Proof.
  destruct open_section_rigidity_is_strip_sum as [Hgeneral _].
  destruct c_section_facts as (Hsec & Htop & _).
  apply (Hgeneral _ 10%R Hsec Htop).
Defined.

(** On the box of Case 4 the rational formulas of [Engine] and the solver
    over the reals return the same rigidity and twist rate. *)
Lemma engine_agrees_on_box (torque : Q) :
  Analyzer.compute_torsion (map real_wall box_section) (Q2R torque)
  = inr {| Analyzer.rigidity :=
             Q2R (Engine.rigidity (Engine.compute_torsion box_section torque));
           Analyzer.twist_rate :=
             Q2R (Engine.twist_rate (Engine.compute_torsion box_section torque)) |}.
Proof.
  destruct box_cell_facts as (Hsec & Htop & Hloop).
  unfold Analyzer.compute_torsion.
  rewrite (no_zero_wall _ (proj1 Hsec)), Htop, Hloop.
  cbn [Engine.rigidity Engine.twist_rate Engine.compute_torsion].
  assert (HGJ : Q2R (Engine.GJ box_section) = (1120000 / 11)%R).
  { rewrite (Qeq_eqR _ (1120000 # 11)) by by_evaluation. as_reals. }
  assert (Htwist : Q2R (torque / Engine.GJ box_section)
                   = (Q2R torque / Q2R (Engine.GJ box_section))%R).
  { unfold Qdiv. rewrite Q2R_mult, Q2R_inv; [ reflexivity | by_evaluation ]. }
  rewrite Htwist, HGJ.
  assert (HJ : (4 * Q2R Case4.Ah ^ 2 / Q2R Case4.int_ds_mut)%R
               = (1120000 / 11)%R) by as_reals.
  rewrite HJ. reflexivity.
Qed.

(** ** Cases 1 and 2 on inputs of practical size *)

Ltac next_division :=
  match goal with
  | |- context [Qeq_bool ?d 0] => destruct (Qeq_bool d 0) eqn:?; cbv beta iota
  end.

Lemma Qeq_bool_false (x : Q) : Qeq_bool x 0 = false <-> ~ x == 0.
Proof.
  split.
  - intros Hb Hx. apply Qeq_bool_iff in Hx. congruence.
  - intros Hx. destruct (Qeq_bool x 0) eqn:E; [ | reflexivity ].
    apply Qeq_bool_iff in E. contradiction.
Qed.

(** With both moduli non-zero, the sum of compliances vanishes exactly when
    [vf * Em + vm * Ef] does. *)
Lemma compliance_sum_zero (Em Ef vm vf : Q) :
  ~ Ef == 0 -> ~ Em == 0 ->
  (vf / Ef + vm / Em == 0 <-> vf * Em + vm * Ef == 0).
Proof.
  intros HEf HEm.
  assert (Hsum : vf / Ef + vm / Em == (vf * Em + vm * Ef) / (Ef * Em))
    by (field; tauto).
  assert (Hden : ~ Ef * Em == 0).
  { intros H0. apply Qmult_integral in H0. tauto. }
  rewrite Hsum. split.
  - intros H0.
    setoid_replace (vf * Em + vm * Ef)
      with ((vf * Em + vm * Ef) / (Ef * Em) * (Ef * Em)) by (field; tauto).
    rewrite H0. ring.
  - intros H0. rewrite H0. unfold Qdiv. ring.
Qed.

Lemma scaled_modulus_zero (x : Q) : x * 1e9 == 0 <-> x == 0.
Proof.
  lits. split; intros H0; lra.
Qed.

Lemma weighted_sum_pos (a c x y : Q) :
  0 < a -> 0 < c -> 0 <= x -> 0 <= y -> 0 < x + y -> 0 < x * a + y * c.
Proof.
  intros Ha Hc Hx Hy Hxy.
  pose proof (Qmult_le_0_compat x a Hx (Qlt_le_weak _ _ Ha)) as Hxa.
  pose proof (Qmult_le_0_compat y c Hy (Qlt_le_weak _ _ Hc)) as Hyc.
  destruct (Qlt_le_dec 0 x) as [Hpos | Hzero].
  - pose proof (Qmult_lt_0_compat x a Hpos Ha). lra.
  - assert (Hy' : 0 < y) by lra.
    pose proof (Qmult_lt_0_compat y c Hy' Hc). lra.
Qed.

(** A weighted sum of two positive moduli against the matching harmonic
    mean: the arithmetic-harmonic inequality, for weights that sum to at
    least one. *)
Lemma mixture_product_bound (Em Ef vm vf : Q) :
  0 < Em -> 0 < Ef -> 0 <= vm -> 0 <= vf -> 1 <= vf + vm ->
  Ef * Em <= (vf * Ef + vm * Em) * (vf * Em + vm * Ef).
Proof.
  intros HEm HEf Hvm Hvf Hsum.
  assert (Hmix : 0 <= vf * vm * (Ef - Em) ^ 2).
  { apply Qmult_le_0_compat;
      [ apply Qmult_le_0_compat; assumption
      | generalize (Ef - Em); intros d; nra ]. }
  assert (Hone : 0 <= Ef * Em * ((vf + vm) ^ 2 - 1)).
  { apply Qmult_le_0_compat.
    - apply Qmult_le_0_compat; lra.
    - setoid_replace ((vf + vm) ^ 2 - 1) with ((vf + vm - 1) * (vf + vm + 1))
        by ring.
      apply Qmult_le_0_compat; lra. }
  setoid_replace ((vf * Ef + vm * Em) * (vf * Em + vm * Ef))
    with (Ef * Em + (Ef * Em * ((vf + vm) ^ 2 - 1) + vf * vm * (Ef - Em) ^ 2))
    by ring.
  lra.
Qed.

(** [D] as a polynomial in the two moduli read. *)
Lemma D_polynomial (Ef Ew : Q) :
  Case2.D Ef Ew == (62500 # 3) * Ef ^ 2 + (125000 # 9) * Ef * Ew.
Proof.
  unfold Case2.D, Case2.EI_yy, Case2.EI_zz, Case2.EI_yz, Case2.term_flange_zz,
    Case2.h, Case2.b, Case2.tf, Case2.tw.
  lits. field.
Qed.

(** The three stiffnesses as multiples of the moduli read. *)
Lemma case2_stiffness_closed_forms (Ef Ew : Q) :
  Case2.EI_yy Ef Ew == 500 * Ef + (250 # 3) * Ew /\
  Case2.EI_zz Ef == (500 # 3) * Ef /\
  Case2.EI_yz Ef == 250 * Ef.
Proof.
  unfold Case2.EI_yy, Case2.EI_zz, Case2.EI_yz, Case2.term_flange_zz,
    Case2.h, Case2.b, Case2.tf, Case2.tw.
  lits. repeat split; field.
Qed.

Lemma D_factored (Ef Ew : Q) :
  Case2.D Ef Ew == (62500 # 9) * Ef * (3 * Ef + 2 * Ew).
Proof.
  rewrite D_polynomial. ring.
Qed.

Lemma D_zero_inputs (Ef Ew : Q) :
  Case2.D Ef Ew == 0 <-> Ef == 0 \/ 3 * Ef + 2 * Ew == 0.
Proof.
  rewrite D_factored. split.
  - intros H0. apply Qmult_integral in H0. destruct H0 as [H0 | H0].
    + left. lra.
    + right. exact H0.
  - intros [H0 | H0]; rewrite H0; ring.
Qed.

(** A full run of Case 1: the four results, with the values the script's
    expressions have. *)
Lemma case1_full_run (Em Ef vm vf Force L : Q) :
  ~ Ef == 0 -> ~ Em == 0 -> ~ vf / Ef + vm / Em == 0 ->
  ~ (vf * Ef + vm * Em) * 1e9 == 0 ->
  run (Case1.main Em Ef vm vf Force L)
  = ([ Step "Longitudinal Modulus (Ex)" "E_x = v_f E_f + v_m E_m"
         (vf * Ef + vm * Em) "GPa" "28";
       Step "Transverse Modulus (Ey)"
         "E_y = \left( \frac{v_f}{E_f} + \frac{v_m}{E_m} \right)^{-1}"
         (1 / (vf / Ef + vm / Em)) "GPa" "28";
       Step "Axial Stress" "\sigma_{xx} = \frac{F}{A}"
         ((Force * 1000) / Case1.Area / 1e6) "MPa" "30";
       Step "Lengthening" "\Delta L = \epsilon_{xx} L"
         (((Force * 1000) / Case1.Area / 1e6 * 1e6) / ((vf * Ef + vm * Em) * 1e9)
          * L * 1000) "mm" "30" ],
      inr tt).
Proof.
  intros HEf HEm Hsum HEx.
  apply Qeq_bool_false in HEf, HEm, Hsum, HEx.
  unfold run, Case1.main, bind, log_step, truediv.
  cbv beta iota zeta.
  rewrite HEf. cbv beta iota. rewrite HEm. cbv beta iota.
  rewrite Hsum. cbv beta iota. rewrite HEx. reflexivity.
Qed.

Lemma pypow_ok (x : Q) (n : Z) (page : list Element) :
  Qabs (x ^ n) < overflow_threshold -> pypow x n page = (page, inr (x ^ n)).
Proof.
  intros Hin. unfold pypow.
  destruct (Qle_bool overflow_threshold (Qabs (x ^ n))) eqn:E; [ | reflexivity ].
  apply Qle_bool_iff in E. lra.
Qed.

Lemma pypow_overflow (x : Q) (n : Z) (page : list Element) :
  overflow_threshold <= Qabs (x ^ n) -> pypow x n page = (page, inl OverflowError).
Proof.
  intros Hout. unfold pypow. apply Qle_bool_iff in Hout. now rewrite Hout.
Qed.

(** The square of line 126, by the flange modulus read. *)
Lemma EI_yz_square (Ef : Q) : Qabs (Case2.EI_yz Ef ^ 2) == 62500 * Ef ^ 2.
Proof.
  destruct (case2_stiffness_closed_forms Ef 0) as (_ & _ & Hyz).
  rewrite Hyz.
  setoid_replace ((250 * Ef) ^ 2) with (62500 * Ef ^ 2) by ring.
  apply Qabs_pos. generalize Ef. intros x. nra.
Qed.

(** A full run of Case 2: the six results, with the values the script's
    expressions have. *)
Lemma case2_full_run (Ef Ew My : Q) :
  Qabs (Case2.EI_yz Ef ^ 2) < overflow_threshold ->
  ~ Case2.D Ef Ew == 0 ->
  run (Case2.main Ef Ew My)
  = ([ Step "Bending Stiffness EI_yy"
         "\overline{E}I_{yy} \approx 2(t_f b (\frac{h}{2})^2 E_f) + E_w \frac{t_w h^3}{12}"
         (Case2.EI_yy Ef Ew) "N.m^2" "64";
       Step "Bending Stiffness EI_zz"
         "\overline{E}I_{zz} \approx 2 E_f (I_{zz}^{local} + A d^2)"
         (Case2.EI_zz Ef) "N.m^2" "64";
       Step "Product Stiffness EI_yz"
         "\overline{E}I_{yz} = 2 E_f (t_f b) (\frac{h}{2}) (\frac{b}{2})"
         (Case2.EI_yz Ef) "N.m^2" "64";
       Step "Max Web Stress"
         "\sigma_{web} = E_w \frac{\overline{E}I_{zz} M_y z}{D}"
         (Ew*1e9 * (Case2.EI_zz Ef * (My*1000) * (Case2.h/2)) / Case2.D Ef Ew / 1e6)
         "MPa" "65";
       Step "Flange Stress (Junction)" "y=0"
         (Ef*1e9 * (Case2.EI_zz Ef * (My*1000) * (Case2.h/2)) / Case2.D Ef Ew / 1e6)
         "MPa" "66";
       Step "Flange Stress (Tip)" "y=0.05"
         (Ef*1e9 * (Case2.EI_zz Ef * (My*1000) * (Case2.h/2)
                    - Case2.EI_yz Ef * (My*1000) * Case2.b)
          / Case2.D Ef Ew / 1e6)
         "MPa" "66" ],
      inr tt).
Proof.
  intros Hrange HD. apply Qeq_bool_false in HD. unfold Case2.D in HD.
  unfold run, Case2.main, bind, log_step, truediv.
  cbv beta iota zeta. rewrite (pypow_ok _ _ _ Hrange).
  cbv beta iota. rewrite HD. reflexivity.
Qed.

(** The run that squares a value too large for a float: three results and
    OverflowError. *)
Lemma case2_overflow_run (Ef Ew My : Q) :
  overflow_threshold <= Qabs (Case2.EI_yz Ef ^ 2) ->
  run (Case2.main Ef Ew My)
  = ([ Step "Bending Stiffness EI_yy"
         "\overline{E}I_{yy} \approx 2(t_f b (\frac{h}{2})^2 E_f) + E_w \frac{t_w h^3}{12}"
         (Case2.EI_yy Ef Ew) "N.m^2" "64";
       Step "Bending Stiffness EI_zz"
         "\overline{E}I_{zz} \approx 2 E_f (I_{zz}^{local} + A d^2)"
         (Case2.EI_zz Ef) "N.m^2" "64";
       Step "Product Stiffness EI_yz"
         "\overline{E}I_{yz} = 2 E_f (t_f b) (\frac{h}{2}) (\frac{b}{2})"
         (Case2.EI_yz Ef) "N.m^2" "64" ],
      inl OverflowError).
Proof.
  intros Hout.
  unfold run, Case2.main, bind, log_step.
  cbv beta iota zeta. rewrite (pypow_overflow _ _ _ Hout). reflexivity.
Qed.

(** The three stresses of a full run, cleared of their divisions. *)
Lemma case2_stress_values (Ef Ew My : Q) :
  ~ Ef == 0 -> ~ 3 * Ef + 2 * Ew == 0 ->
  Ew*1e9 * (Case2.EI_zz Ef * (My*1000) * (Case2.h/2)) / Case2.D Ef Ew / 1e6
    == 1200 * Ew * My / (3 * Ef + 2 * Ew) /\
  Ef*1e9 * (Case2.EI_zz Ef * (My*1000) * (Case2.h/2)) / Case2.D Ef Ew / 1e6
    == 1200 * Ef * My / (3 * Ef + 2 * Ew) /\
  Ef*1e9 * (Case2.EI_zz Ef * (My*1000) * (Case2.h/2)
            - Case2.EI_yz Ef * (My*1000) * Case2.b) / Case2.D Ef Ew / 1e6
    == - (600 * Ef * My / (3 * Ef + 2 * Ew)).
Proof.
  intros HEf Hsum.
  destruct (case2_stiffness_closed_forms Ef Ew) as (_ & Hzz & Hyz).
  rewrite Hzz, Hyz, D_factored. unfold Case2.h, Case2.b. lits.
  repeat split; field; tauto.
Qed.

(** A quotient of positive numbers from a bound on each. *)
Lemma quotient_at_least (a x c U : Q) :
  0 <= a -> a <= x -> 0 < c -> c <= U -> a / U <= x / c.
Proof.
  intros Ha Hx Hc HU.
  apply Qle_shift_div_l; [ exact Hc | ].
  assert (HqU : a / U * U == a) by (field; lra).
  assert (Hq : 0 <= a / U) by (apply Qle_shift_div_l; lra).
  set (q := a / U) in *. nra.
Qed.

Lemma threshold_is_far : 1e300 < overflow_threshold.
Proof. by_evaluation. Qed.

(** X1.  For a flange modulus from 50 to 1e6 GPa, a web modulus from 15 to
    1e6 GPa and a moment from 1 to 1e6 kNm, Case 2 raises nothing and shows
    its six results: the square of line 126 stays below 1e17 and the
    divisor D is at least 60,000,000, and the stresses shown, in MPa, are
    web = 1200*Ew*My/(3*Ef + 2*Ew), at least 0.0036; flange at the junction
    = 1200*Ef*My/(3*Ef + 2*Ew), at least 0.012; flange at the tip
    = -600*Ef*My/(3*Ef + 2*Ew), at most -0.006. *)
Theorem case2_runs_on_practical_inputs :
  forall Ef Ew My : Q,
    50 <= Ef <= 1e6 -> 15 <= Ew <= 1e6 -> 1 <= My <= 1e6 ->
    Qabs (Case2.EI_yz Ef ^ 2) <= 1e17 /\
    60000000 <= Case2.D Ef Ew /\
    raised (Case2.main Ef Ew My) = None /\
    List.length (page_of (Case2.main Ef Ew My)) = 6%nat /\
    exists web junction tip : Q,
      shown "Max Web Stress" (page_of (Case2.main Ef Ew My)) = Some (web, "MPa") /\
      shown "Flange Stress (Junction)" (page_of (Case2.main Ef Ew My))
        = Some (junction, "MPa") /\
      shown "Flange Stress (Tip)" (page_of (Case2.main Ef Ew My))
        = Some (tip, "MPa") /\
      web == 1200 * Ew * My / (3 * Ef + 2 * Ew) /\
      junction == 1200 * Ef * My / (3 * Ef + 2 * Ew) /\
      tip == - (600 * Ef * My / (3 * Ef + 2 * Ew)) /\
      0.0036 <= web /\ 0.012 <= junction /\ tip <= - 0.006.
Proof.
  intros Ef Ew My [HEf HEf'] [HEw HEw'] [HMy HMy'].
  lits.
  assert (Hsq : Qabs (Case2.EI_yz Ef ^ 2) <= 100000000000000000).
  { rewrite EI_yz_square. nra. }
  assert (HD : 62500000 <= Case2.D Ef Ew).
  { rewrite D_polynomial. nra. }
  assert (HD0 : ~ Case2.D Ef Ew == 0) by lra.
  assert (Hrange : Qabs (Case2.EI_yz Ef ^ 2) < overflow_threshold).
  { pose proof threshold_is_far as Hfar. lits. lra. }
  assert (HEf0 : ~ Ef == 0) by lra.
  assert (Hsum : 0 < 3 * Ef + 2 * Ew) by lra.
  assert (Hsum0 : ~ 3 * Ef + 2 * Ew == 0) by lra.
  assert (Hsum' : 3 * Ef + 2 * Ew <= 5000000) by lra.
  destruct (case2_stress_values Ef Ew My HEf0 Hsum0) as (Hweb & Hjunction & Htip).
  pose proof (case2_full_run Ef Ew My Hrange HD0) as Hrun.
  split; [ exact Hsq | ].
  split; [ apply Qle_trans with 62500000; [ by_evaluation | exact HD ] | ].
  unfold raised, page_of. rewrite Hrun. cbn [fst snd].
  split; [ reflexivity | ].
  split; [ reflexivity | ].
  eexists. eexists. eexists.
  split; [ reflexivity | ].
  split; [ reflexivity | ].
  split; [ reflexivity | ].
  rewrite Hweb, Hjunction, Htip.
  split; [ reflexivity | ].
  split; [ reflexivity | ].
  split; [ reflexivity | ].
  assert (Hw : (36 # 10000) <= 1200 * Ew * My / (3 * Ef + 2 * Ew)).
  { apply Qle_trans with (18000 / 5000000); [ by_evaluation | ].
    apply quotient_at_least; try lra. nra. }
  assert (Hj : (12 # 1000) <= 1200 * Ef * My / (3 * Ef + 2 * Ew)).
  { apply Qle_trans with (60000 / 5000000); [ by_evaluation | ].
    apply quotient_at_least; try lra. nra. }
  assert (Ht : (6 # 1000) <= 600 * Ef * My / (3 * Ef + 2 * Ew)).
  { apply Qle_trans with (30000 / 5000000); [ by_evaluation | ].
    apply quotient_at_least; try lra. nra. }
  clear - Hw Hj Ht. revert Hw Hj Ht.
  generalize (1200 * Ew * My / (3 * Ef + 2 * Ew))
    (1200 * Ef * My / (3 * Ef + 2 * Ew)) (600 * Ef * My / (3 * Ef + 2 * Ew)).
  intros web junction tip Hw Hj Ht. repeat split; lra.
Qed.

(** The values the form shows first: 50 GPa, 15 GPa, 1 kNm. *)
Lemma case2_runs_on_practical_inputs_witness :
  raised (Case2.main 50 15 1) = None /\
  List.length (page_of (Case2.main 50 15 1)) = 6%nat.
Proof.
  pose proof (case2_runs_on_practical_inputs 50 15 1) as Hrun.
  destruct Hrun as (_ & _ & Hnone & Hsix & _);
    [ split; by_evaluation | split; by_evaluation | split; by_evaluation | ].
  split; [ exact Hnone | exact Hsix ].
Defined.

(** X2.  For a flange modulus from 1e152 to 1e290 GPa (the form accepts
    every value from 50 up) and a web modulus from 15 to 1e290 GPa, Case 2
    shows its three stiffness results and then stops with OverflowError:
    the square of EI_yz on line 126 leaves the range of a float. *)
Theorem case2_overflow_on_huge_flange_modulus :
  forall Ef Ew My : Q,
    1e152 <= Ef <= 1e290 -> 15 <= Ew <= 1e290 ->
    raised (Case2.main Ef Ew My) = Some OverflowError /\
    page_of (Case2.main Ef Ew My)
    = [ Step "Bending Stiffness EI_yy"
          "\overline{E}I_{yy} \approx 2(t_f b (\frac{h}{2})^2 E_f) + E_w \frac{t_w h^3}{12}"
          (Case2.EI_yy Ef Ew) "N.m^2" "64";
        Step "Bending Stiffness EI_zz"
          "\overline{E}I_{zz} \approx 2 E_f (I_{zz}^{local} + A d^2)"
          (Case2.EI_zz Ef) "N.m^2" "64";
        Step "Product Stiffness EI_yz"
          "\overline{E}I_{yz} = 2 E_f (t_f b) (\frac{h}{2}) (\frac{b}{2})"
          (Case2.EI_yz Ef) "N.m^2" "64" ] /\
    Case2.EI_yy Ef Ew <= 1e293 /\ Case2.EI_zz Ef <= 1e293 /\
    Case2.EI_yz Ef <= 1e293 /\ 6e308 <= Case2.EI_yz Ef ^ 2.
Proof.
  intros Ef Ew My [HEf HEf'] [HEw HEw'].
  destruct (case2_stiffness_closed_forms Ef Ew) as (Hyy & Hzz & Hyz).
  assert (Hbig : 6e308 <= Qabs (Case2.EI_yz Ef ^ 2)).
  { rewrite EI_yz_square. lits.
    assert (Hsq : 1e152 * 1e152 <= Ef * Ef).
    { lits. apply Qle_trans with (1e152 * Ef); lits.
      - apply Qmult_le_l; lra.
      - apply Qmult_le_r; lra. }
    lits. setoid_replace (Ef ^ 2) with (Ef * Ef) by ring. lra. }
  assert (Hout : overflow_threshold <= Qabs (Case2.EI_yz Ef ^ 2)).
  { apply Qle_trans with 6e308; [ by_evaluation | exact Hbig ]. }
  pose proof (case2_overflow_run Ef Ew My Hout) as Hrun.
  unfold raised, page_of. rewrite Hrun. cbn [fst snd].
  split; [ reflexivity | ].
  split; [ reflexivity | ].
  rewrite Hyy, Hzz, Hyz. rewrite EI_yz_square in Hbig.
  setoid_replace ((250 * Ef) ^ 2) with (62500 * Ef ^ 2) by ring.
  lits. repeat split; lra.
Qed.

(** A flange modulus of 1e200 GPa. *)
Lemma case2_overflow_on_huge_flange_modulus_witness :
  raised (Case2.main 1e200 15 1) = Some OverflowError /\
  List.length (page_of (Case2.main 1e200 15 1)) = 3%nat.
Proof.
  pose proof (case2_overflow_on_huge_flange_modulus 1e200 15 1) as Hrun.
  destruct Hrun as (Hraised & Hpage & _);
    [ split; by_evaluation | split; by_evaluation | ].
  split; [ exact Hraised | ]. rewrite Hpage. reflexivity.
Defined.

(** What the bounds of Case 1 give: both input-dependent divisors are far
    from zero. *)
Lemma case1_divisors (Em Ef vm vf : Q) :
  5 <= Em <= 1e6 -> 200 <= Ef <= 1e6 -> 0.8 <= vm <= 1e6 -> 0.2 <= vf <= 1e6 ->
  (1 # 1000000) <= vf / Ef + vm / Em /\ 44 <= vf * Ef + vm * Em /\
  0 < vf * Em + vm * Ef /\ vf * Em + vm * Ef <= 2000000000000 /\
  1000 <= Ef * Em.
Proof.
  intros [HEm HEm'] [HEf HEf'] [Hvm Hvm'] [Hvf Hvf']. lits.
  assert (Hf : (2 # 10) / 1000000 <= vf / Ef)
    by (apply quotient_at_least; lra).
  assert (Hm : (8 # 10) / 1000000 <= vm / Em)
    by (apply quotient_at_least; lra).
  assert (Hf' : (2 # 10000000) <= vf / Ef)
    by (apply Qle_trans with ((2 # 10) / 1000000); [ by_evaluation | exact Hf ]).
  assert (Hm' : (8 # 10000000) <= vm / Em)
    by (apply Qle_trans with ((8 # 10) / 1000000); [ by_evaluation | exact Hm ]).
  split.
  { clear - Hf' Hm'. revert Hf' Hm'. generalize (vf / Ef) (vm / Em).
    intros cf cm Hcf Hcm. lra. }
  repeat split; nra.
Qed.

(** X3.  For inputs of practical size (matrix modulus from 5 and fibre
    modulus from 200 to 1e6 GPa, volume fractions from 0.8 and 0.2 to 1e6,
    load from 100 to 1e6 kN, length from 0.5 to 1e6 m) Case 1 raises nothing
    and shows its four results.  Its divisors stay far from zero (the sum
    of compliances is at least 5e-7 and Ex at least 40).  It shows
    Ex = vf*Ef + vm*Em and Ey = Ef*Em/(vf*Em + vm*Ef), at least 1e-10, and
    its unit conversions cancel: the stress in pascals times the area
    0.08 m * 0.05 m is the load in newtons, and the lengthening in metres
    times Ex * Area in newtons is load * length. *)
Theorem case1_runs_on_practical_inputs :
  forall Em Ef vm vf Force L : Q,
    5 <= Em <= 1e6 -> 200 <= Ef <= 1e6 ->
    0.8 <= vm <= 1e6 -> 0.2 <= vf <= 1e6 ->
    100 <= Force <= 1e6 -> 0.5 <= L <= 1e6 ->
    (5 # 10000000) <= vf / Ef + vm / Em /\
    40 <= vf * Ef + vm * Em /\
    raised (Case1.main Em Ef vm vf Force L) = None /\
    List.length (page_of (Case1.main Em Ef vm vf Force L)) = 4%nat /\
    exists Ex Ey sigma dL : Q,
      shown "Longitudinal Modulus (Ex)" (page_of (Case1.main Em Ef vm vf Force L))
        = Some (Ex, "GPa") /\
      shown "Transverse Modulus (Ey)" (page_of (Case1.main Em Ef vm vf Force L))
        = Some (Ey, "GPa") /\
      shown "Axial Stress" (page_of (Case1.main Em Ef vm vf Force L))
        = Some (sigma, "MPa") /\
      shown "Lengthening" (page_of (Case1.main Em Ef vm vf Force L))
        = Some (dL, "mm") /\
      Ex == vf * Ef + vm * Em /\
      Ey == Ef * Em / (vf * Em + vm * Ef) /\
      (1 # 10000000000) <= Ey /\
      in_SI sigma "MPa" * Case1.Area == Force * 1000 /\
      in_SI dL "mm" * (in_SI Ex "GPa" * Case1.Area) == Force * 1000 * L.
Proof.
  intros Em Ef vm vf Force L HEm HEf Hvm Hvf HForce HL.
  destruct (case1_divisors Em Ef vm vf HEm HEf Hvm Hvf)
    as (Hsum & HEx & HS & HS' & Hprod).
  destruct HEm as [HEm _]. destruct HEf as [HEf _].
  assert (HEf0 : ~ Ef == 0) by lra.
  assert (HEm0 : ~ Em == 0) by lra.
  assert (HS0 : ~ vf / Ef + vm / Em == 0).
  { clear - Hsum. revert Hsum. generalize (vf / Ef + vm / Em). intros c Hc. lra. }
  assert (HX0' : ~ vf * Ef + vm * Em == 0) by lra.
  assert (HX0 : ~ (vf * Ef + vm * Em) * 1e9 == 0).
  { rewrite scaled_modulus_zero. exact HX0'. }
  pose proof (case1_full_run Em Ef vm vf Force L HEf0 HEm0 HS0 HX0) as Hrun.
  split; [ apply Qle_trans with (1 # 1000000); [ by_evaluation | exact Hsum ] | ].
  split; [ apply Qle_trans with 44; [ by_evaluation | exact HEx ] | ].
  unfold raised, page_of. rewrite Hrun. cbn [fst snd].
  split; [ reflexivity | ].
  split; [ reflexivity | ].
  eexists. eexists. eexists. eexists.
  split; [ reflexivity | ].
  split; [ reflexivity | ].
  split; [ reflexivity | ].
  split; [ reflexivity | ].
  split; [ reflexivity | ].
  assert (HEy : 1 / (vf / Ef + vm / Em) == Ef * Em / (vf * Em + vm * Ef)).
  { field. repeat split; try assumption. lra. }
  split; [ exact HEy | ].
  split.
  { rewrite HEy.
    apply Qle_trans with (1000 / 2000000000000); [ by_evaluation | ].
    apply quotient_at_least; lra. }
  unfold in_SI.
  change (si_factor "MPa") with 1e6. change (si_factor "mm") with 1e-3.
  change (si_factor "GPa") with 1e9.
  unfold Case1.Area. lits.
  split; field. exact HX0'.
Qed.

(** The values the form shows first. *)
Lemma case1_runs_on_practical_inputs_witness :
  raised (Case1.main 5 200 0.8 0.2 100 0.5) = None /\
  List.length (page_of (Case1.main 5 200 0.8 0.2 100 0.5)) = 4%nat.
Proof.
  pose proof (case1_runs_on_practical_inputs 5 200 0.8 0.2 100 0.5) as Hrun.
  destruct Hrun as (_ & _ & Hnone & Hfour & _); [ split; by_evaluation .. | ].
  split; [ exact Hnone | exact Hfour ].
Defined.

(** X4.  For inputs of practical size with a fibre at least twice as stiff
    as the matrix, the transverse modulus Case 1 shows is well below the
    longitudinal one: 1.07 * Ey <= Ex. *)
Theorem case1_stiff_fibre_margin :
  forall Em Ef vm vf Force L : Q,
    5 <= Em <= 1e6 -> 200 <= Ef <= 1e6 ->
    0.8 <= vm <= 1e6 -> 0.2 <= vf <= 1e6 ->
    2 * Em <= Ef ->
    exists Ex Ey : Q,
      shown "Longitudinal Modulus (Ex)" (page_of (Case1.main Em Ef vm vf Force L))
        = Some (Ex, "GPa") /\
      shown "Transverse Modulus (Ey)" (page_of (Case1.main Em Ef vm vf Force L))
        = Some (Ey, "GPa") /\
      (107 # 100) * Ey <= Ex.
Proof.
  intros Em Ef vm vf Force L HEm HEf Hvm Hvf Hstiff.
  destruct (case1_divisors Em Ef vm vf HEm HEf Hvm Hvf)
    as (Hsum & HEx & HS & HS' & Hprod).
  destruct HEm as [HEm _]. destruct HEf as [HEf _].
  destruct Hvm as [Hvm _]. destruct Hvf as [Hvf _]. lits.
  assert (HEf0 : ~ Ef == 0) by lra.
  assert (HEm0 : ~ Em == 0) by lra.
  assert (HS0 : ~ vf / Ef + vm / Em == 0).
  { clear - Hsum. revert Hsum. generalize (vf / Ef + vm / Em). intros c Hc. lra. }
  assert (HX0 : ~ (vf * Ef + vm * Em) * 1e9 == 0).
  { rewrite scaled_modulus_zero. lra. }
  pose proof (case1_full_run Em Ef vm vf Force L HEf0 HEm0 HS0 HX0) as Hrun.
  unfold page_of. rewrite Hrun. cbn [fst].
  eexists. eexists.
  split; [ reflexivity | ].
  split; [ reflexivity | ].
  assert (HEy : 1 / (vf / Ef + vm / Em) == Ef * Em / (vf * Em + vm * Ef)).
  { field. repeat split; try assumption. lra. }
  rewrite HEy.
  assert (Hmargin : (108 # 100) * (Ef * Em)
                    <= (vf * Ef + vm * Em) * (vf * Em + vm * Ef)).
  { assert (Hone : 0 <= (vf + vm - 1) * (vf + vm + 1))
      by (apply Qmult_le_0_compat; lra).
    assert (Hfm : (16 # 100) <= vf * vm) by nra.
    assert (Hgap : Ef * Em <= 2 * ((Ef - Em) * (Ef - Em))) by nra.
    assert (Hsq : 0 <= (Ef - Em) * (Ef - Em)) by nra.
    assert (Hmix : (16 # 100) * ((Ef - Em) * (Ef - Em))
                   <= vf * vm * ((Ef - Em) * (Ef - Em)))
      by (apply Qmult_le_compat_r; assumption).
    assert (Hpos : 0 <= Ef * Em) by nra.
    assert (Hbase : 0 <= Ef * Em * ((vf + vm - 1) * (vf + vm + 1)))
      by (apply Qmult_le_0_compat; assumption).
    setoid_replace ((vf * Ef + vm * Em) * (vf * Em + vm * Ef))
      with (Ef * Em + (Ef * Em * ((vf + vm - 1) * (vf + vm + 1))
                       + vf * vm * ((Ef - Em) * (Ef - Em)))) by ring.
    lra. }
  setoid_replace ((107 # 100) * (Ef * Em / (vf * Em + vm * Ef)))
    with ((107 # 100) * (Ef * Em) / (vf * Em + vm * Ef)) by (field; lra).
  apply Qle_shift_div_r; [ exact HS | ].
  apply Qle_trans with ((108 # 100) * (Ef * Em)); [ | exact Hmargin ].
  clear - Hprod. revert Hprod. generalize (Ef * Em). intros p Hp. lra.
Qed.

(** The values the form shows first: 200 GPa against 5 GPa. *)
Lemma case1_stiff_fibre_margin_witness :
  exists Ex Ey : Q,
    shown "Longitudinal Modulus (Ex)" (page_of (Case1.main 5 200 0.8 0.2 100 0.5))
      = Some (Ex, "GPa") /\
    shown "Transverse Modulus (Ey)" (page_of (Case1.main 5 200 0.8 0.2 100 0.5))
      = Some (Ey, "GPa") /\
    (107 # 100) * Ey <= Ex.
Proof.
  apply (case1_stiff_fibre_margin 5 200 0.8 0.2 100 0.5);
    try (split; by_evaluation); by_evaluation.
Defined.

(** ** The open sections: which wall governs *)

(** X5.  For a torque from 10 to 1e6 N m in Case 5 and from 0.5 to 1e6 N m
    in Case 6 the web carries the larger shear stress.  In the C-section
    the web stress is 1200/161 MPa per N m and the flange stress 960/161,
    at least 50 MPa, so the web stress is more than 1.2 times the flange
    stress; in the I-section they are 15675/13144 and 2445/13144 MPa per
    N m, the flange stress at least 0.09 MPa and the web stress more than
    6 times it; and the warping displacement of Case 6 is
    -375/13144 mm per N m, at most -0.014 mm. *)
Theorem open_sections_web_governs :
  forall Mx5 Mx6 : Q,
    10 <= Mx5 <= 1e6 -> 0.5 <= Mx6 <= 1e6 ->
    (Case5.tau_web Mx5 == (1200 # 161) * Mx5 /\
     Case5.tau_flange Mx5 == (960 # 161) * Mx5 /\
     50 <= Case5.tau_flange Mx5 /\
     (12 # 10) * Case5.tau_flange Mx5 <= Case5.tau_web Mx5) /\
    (Case6.tau_w Mx6 == (15675 # 13144) * Mx6 /\
     Case6.tau_f Mx6 == (2445 # 13144) * Mx6 /\
     (9 # 100) <= Case6.tau_f Mx6 /\
     6 * Case6.tau_f Mx6 <= Case6.tau_w Mx6 /\
     Case6.u_warping Mx6 == - (375 # 13144) * Mx6 /\
     Case6.u_warping Mx6 <= - (14 # 1000)).
Proof.
  intros Mx5 Mx6 [H5 _] [H6 _].
  assert (H5w : Case5.tau_web Mx5 == (1200 # 161) * Mx5).
  { unfold Case5.tau_web, Case5.theta_prime, Case5.J_torsion,
      Case5.Gw, Case5.Gf, Case5.tw, Case5.tf, Case5.b, Case5.h.
    lits. field. }
  assert (H5f : Case5.tau_flange Mx5 == (960 # 161) * Mx5).
  { unfold Case5.tau_flange, Case5.theta_prime, Case5.J_torsion,
      Case5.Gw, Case5.Gf, Case5.tw, Case5.tf, Case5.b, Case5.h.
    lits. field. }
  assert (H6w : Case6.tau_w Mx6 == (15675 # 13144) * Mx6).
  { unfold Case6.tau_w, Case6.theta_prime, Case6.J_torsion, Case6.term_f,
      Case6.term_w, Case6.Mx, Case6.Gw, Case6.Gf, Case6.tw, Case6.tf,
      Case6.b, Case6.h.
    lits. field. }
  assert (H6f : Case6.tau_f Mx6 == (2445 # 13144) * Mx6).
  { unfold Case6.tau_f, Case6.theta_prime, Case6.J_torsion, Case6.term_f,
      Case6.term_w, Case6.Mx, Case6.Gw, Case6.Gf, Case6.tw, Case6.tf,
      Case6.b, Case6.h.
    lits. field. }
  assert (H6u : Case6.u_warping Mx6 == - (375 # 13144) * Mx6).
  { unfold Case6.u_warping, Case6.A_swept, Case6.theta_prime, Case6.J_torsion,
      Case6.term_f, Case6.term_w, Case6.Mx, Case6.Gw, Case6.Gf, Case6.tw,
      Case6.tf, Case6.b, Case6.h.
    lits. field. }
  split.
  - rewrite H5w, H5f. repeat split; lra.
  - rewrite H6w, H6f, H6u. repeat split; lra.
Qed.

(** The torques the form shows first: 10 N m and 0.5 N m. *)
Lemma open_sections_web_governs_witness :
  (12 # 10) * Case5.tau_flange 10 <= Case5.tau_web 10 /\
  6 * Case6.tau_f 0.5 <= Case6.tau_w 0.5 /\
  Case6.u_warping 0.5 <= - (14 # 1000).
Proof.
  pose proof (open_sections_web_governs 10 0.5) as Hgov.
  destruct Hgov as ((_ & _ & _ & H5) & (_ & _ & _ & H6 & _ & Hu));
    [ split; by_evaluation .. | ].
  split; [ exact H5 | split; [ exact H6 | exact Hu ] ].
Defined.

(** ** The whole form *)

Lemma practical_bounds (w : Widgets) :
  practical w ->
  (5 <= w "Matrix E (GPa)" <= 1e6) /\ (200 <= w "Fiber E (GPa)" <= 1e6) /\
  (0.8 <= w "Matrix Vol Fraction" <= 1e6) /\
  (0.2 <= w "Fiber Vol Fraction" <= 1e6) /\
  (100 <= w "Axial Load (kN)" <= 1e6) /\ (0.5 <= w "Length (m)" <= 1e6) /\
  (50 <= w "Flange E (GPa)" <= 1e6) /\ (15 <= w "Web E (GPa)" <= 1e6) /\
  (1 <= w "Moment My (kNm)" <= 1e6).
Proof.
  unfold practical, number_inputs. intros Hw.
  repeat match goal with
         | H : Forall _ (_ :: _) |- _ =>
             let Hhead := fresh "Hhead" in
             let Htail := fresh "Htail" in
             pose proof (Forall_inv H) as Hhead;
             pose proof (Forall_inv_tail H) as Htail;
             clear H; cbn [fst snd] in Hhead
         end.
  lits. repeat split; lra.
Qed.

Lemma first_shown_practical : practical first_shown.
Proof.
  unfold practical, number_inputs.
  repeat (apply Forall_cons; [ split; by_evaluation | ]).
  apply Forall_nil.
Qed.

Lemma app_unknown_selection (case_selection : string) (w : Widgets) :
  ~ In case_selection options -> app case_selection w = ret tt.
Proof.
  unfold options. cbn [In]. intros Hnone. unfold app.
  repeat match goal with
         | |- context [String.eqb case_selection ?l] =>
             destruct (String.eqb_spec case_selection l) as [Heq | _];
             [ exfalso; apply Hnone; rewrite Heq; tauto | ]
         end.
  reflexivity.
Qed.

Lemma case1_on_practical (Em Ef vm vf Force L : Q) :
  5 <= Em <= 1e6 -> 200 <= Ef <= 1e6 -> 0.8 <= vm <= 1e6 -> 0.2 <= vf <= 1e6 ->
  raised (Case1.main Em Ef vm vf Force L) = None /\
  List.length (page_of (Case1.main Em Ef vm vf Force L)) = 4%nat.
Proof.
  intros HEm HEf Hvm Hvf.
  destruct (case1_divisors Em Ef vm vf HEm HEf Hvm Hvf)
    as (Hsum & HEx & _).
  destruct HEm as [HEm _]. destruct HEf as [HEf _].
  assert (HEf0 : ~ Ef == 0) by lra.
  assert (HEm0 : ~ Em == 0) by lra.
  assert (HS0 : ~ vf / Ef + vm / Em == 0).
  { clear - Hsum. revert Hsum. generalize (vf / Ef + vm / Em). intros c Hc. lra. }
  assert (HX0 : ~ (vf * Ef + vm * Em) * 1e9 == 0).
  { rewrite scaled_modulus_zero. lra. }
  unfold raised, page_of.
  rewrite (case1_full_run Em Ef vm vf Force L HEf0 HEm0 HS0 HX0).
  split; reflexivity.
Qed.

Lemma case2_on_practical (Ef Ew My : Q) :
  50 <= Ef <= 1e6 -> 15 <= Ew <= 1e6 ->
  raised (Case2.main Ef Ew My) = None /\
  List.length (page_of (Case2.main Ef Ew My)) = 6%nat.
Proof.
  intros [HEf HEf'] [HEw HEw']. lits.
  assert (Hrange : Qabs (Case2.EI_yz Ef ^ 2) < overflow_threshold).
  { apply Qle_lt_trans with 100000000000000000.
    - rewrite EI_yz_square. nra.
    - pose proof threshold_is_far as Hfar. lits. lra. }
  assert (HD0 : ~ Case2.D Ef Ew == 0).
  { rewrite D_zero_inputs. intros [H0 | H0]; lra. }
  unfold raised, page_of. rewrite (case2_full_run Ef Ew My Hrange HD0).
  split; reflexivity.
Qed.

(** X6.  For inputs of practical size (every number input between its
    lower bound and a million) no option of the radio raises an exception,
    and the six options show 4, 6, 4, 3, 4 and 6 results; a selection that
    is not one of the six options shows none. *)
Theorem app_runs_on_practical_inputs :
  forall (case_selection : string) (w : Widgets),
    practical w ->
    raised (app case_selection w) = None /\
    Forall2 (fun option results =>
               List.length (page_of (app option w)) = results)
      options [4; 6; 4; 3; 4; 6]%nat /\
    (~ In case_selection options -> page_of (app case_selection w) = []).
Proof.
  intros case_selection w Hw.
  destruct (practical_bounds w Hw)
    as (HEm & HEf & Hvm & Hvf & HF & HL & HEf2 & HEw2 & HMy).
  destruct (case1_on_practical _ _ _ _ (w "Axial Load (kN)") (w "Length (m)")
              HEm HEf Hvm Hvf) as (Hr1 & Hl1).
  destruct (case2_on_practical _ _ (w "Moment My (kNm)") HEf2 HEw2)
    as (Hr2 & Hl2).
  split; [ | split ].
  - destruct (in_dec string_dec case_selection options) as [Hin | Hout].
    + unfold options in Hin. cbn [In] in Hin.
      destruct Hin as [<- | [<- | [<- | [<- | [<- | [<- | []]]]]]];
        first [ exact Hr1 | exact Hr2 | reflexivity ].
    + rewrite (app_unknown_selection case_selection w Hout). reflexivity.
  - unfold options.
    repeat (apply Forall2_cons;
            [ first [ exact Hl1 | exact Hl2 | reflexivity ] | ]).
    apply Forall2_nil.
  - intros Hout. rewrite (app_unknown_selection case_selection w Hout).
    reflexivity.
Qed.

(** Every widget at the value it shows first, on the bending case. *)
Lemma app_runs_on_practical_inputs_witness :
  raised (app "Case 2: Bending (Z-Section)" first_shown) = None /\
  List.length (page_of (app "Case 1: Micromechanics (Bar)" first_shown)) = 4%nat.
Proof.
  pose proof (app_runs_on_practical_inputs "Case 2: Bending (Z-Section)"
                first_shown first_shown_practical) as (Hnone & Hcounts & _).
  split; [ exact Hnone | ].
  inversion Hcounts as [ | option results others counts Hhead Htail ].
  exact Hhead.
Defined.
